(** * Query resolution of the YouTube Music skill

    A shallow embedding of the query-resolution part of [__init__.py]
    (class [YoutubeMusicSkill]) and the properties of it that the
    specification states.

    Modelling conventions.
    - Python values that flow through the router are dynamically typed
      ([None], floats, strings, tuples, dicts): they are embedded in one
      universe [pyval], with Python's truthiness, tuple unpacking and
      comparison written out, including the exceptions they raise.
    - Python floats are idealised as rationals [Q]; [min] and [max] follow
      Python's argument order, which is the one of [Qmin] and [Qmax].
    - Strings are [string] (byte strings); [str.lower] and [str.strip] act
      on the ASCII range.
    - The collaborators that are not part of the file (the catalog search
      client [self.yt], [self.translate], the [.regex] resources behind
      [self.translate_regex], [fuzzy_match], and the method
      [get_best_public_playlist], which the class calls but does not define)
      are the fields of an environment record [Env]. The search is total:
      it returns a list of records, empty when nothing is found, and the
      [.regex] resources are present.
    - Effects: a computation threads the trace of the external search calls
      it has issued and may raise; logging and printing are left out.
    - The handlers that read and write the object ([CPS_start], the ducking
      and idle check, [stop], [translate_regex]) thread a record [Skill] of
      its attributes and the list of the calls made on the platform. *)

From Stdlib Require Import String Ascii List Bool Arith Lia.
From Stdlib Require Import QArith Qminmax Lqa.
Import ListNotations.
Local Open Scope string_scope.
Set Warnings "-register-all".

(* ===================================================================== *)
(** ** Python values *)

(** [mycroft.skills.common_play_skill.CPSMatchLevel]. *)
Inductive CPSMatchLevel : Type :=
  | EXACT | MULTI_KEY | TITLE | ARTIST | CATEGORY | GENERIC.

Inductive pyval : Type :=
  | PNone
  | PFloat (q : Q)
  | PStr (s : string)
  | PLevel (l : CPSMatchLevel)
  | PTuple (items : list pyval)
  | PDict (entries : list (string * pyval)).

Inductive exn : Type :=
  | TypeError | ValueError | IndexError | KeyError | AttributeError.

Inductive outcome (A : Type) : Type :=
  | Ok (a : A)
  | Raise (e : exn).
Arguments Ok {A} a.
Arguments Raise {A} e.

Definition Qltb (x y : Q) : bool := negb (Qle_bool y x).

Definition str_nonempty (s : string) : bool :=
  match s with EmptyString => false | String _ _ => true end.

(** Truth value of an object, as [if x:] and [not x] test it. *)
Definition truthy (v : pyval) : bool :=
  match v with
  | PNone => false
  | PFloat q => negb (Qeq_bool q 0)
  | PStr s => str_nonempty s
  | PLevel _ => true
  | PTuple l => match l with [] => false | _ => true end
  | PDict d => match d with [] => false | _ => true end
  end.

(** [a, b = v]. *)
Definition unpack2 (v : pyval) : outcome (pyval * pyval) :=
  match v with
  | PTuple [a; b] => Ok (a, b)
  | PTuple _ => Raise ValueError
  | PStr (String a (String b EmptyString)) =>
      Ok (PStr (String a EmptyString), PStr (String b EmptyString))
  | PStr _ => Raise ValueError
  | PDict [(k1, _); (k2, _)] => Ok (PStr k1, PStr k2)
  | PDict _ => Raise ValueError
  | PNone | PFloat _ | PLevel _ => Raise TypeError
  end.

(** [v > x] for a float literal [x]. *)
Definition gt_float (v : pyval) (x : Q) : outcome bool :=
  match v with
  | PFloat q => Ok (Qltb x q)
  | _ => Raise TypeError
  end.

(** [v < x] for a float literal [x]. *)
Definition lt_float (v : pyval) (x : Q) : outcome bool :=
  match v with
  | PFloat q => Ok (Qltb q x)
  | _ => Raise TypeError
  end.

(** The test [v and v > x]. *)
Definition and_gt (v : pyval) (x : Q) : outcome bool :=
  if truthy v then gt_float v x else Ok false.

(** [d.get(key)]. *)
Fixpoint entries_get (d : list (string * pyval)) (key : string) : pyval :=
  match d with
  | [] => PNone
  | (k, v) :: rest => if String.eqb k key then v else entries_get rest key
  end.

Definition dict_get (v : pyval) (key : string) : outcome pyval :=
  match v with
  | PDict d => Ok (entries_get d key)
  | _ => Raise AttributeError
  end.

(** [v == s] and [v in [s1, ..., sn]] against string literals. *)
Definition eq_str (v : pyval) (s : string) : bool :=
  match v with
  | PStr t => String.eqb t s
  | _ => false
  end.

Definition in_strs (v : pyval) (l : list string) : bool :=
  existsb (eq_str v) l.

(* ===================================================================== *)
(** ** Strings *)

Definition lower_ascii (c : ascii) : ascii :=
  let n := nat_of_ascii c in
  if ((65 <=? n) && (n <=? 90))%nat then ascii_of_nat (n + 32) else c.

(** [s.lower()]. *)
Fixpoint lower (s : string) : string :=
  match s with
  | EmptyString => EmptyString
  | String c r => String (lower_ascii c) (lower r)
  end.

Definition is_space (c : ascii) : bool :=
  let n := nat_of_ascii c in
  (((9 <=? n) && (n <=? 13)) || ((28 <=? n) && (n <=? 32)))%nat.

Fixpoint lstrip (s : string) : string :=
  match s with
  | EmptyString => EmptyString
  | String c r => if is_space c then lstrip r else s
  end.

Fixpoint rstrip (s : string) : string :=
  match s with
  | EmptyString => EmptyString
  | String c r =>
      let r' := rstrip r in
      if is_space c && negb (str_nonempty r') then EmptyString
      else String c r'
  end.

(** [s.strip()]. *)
Definition strip (s : string) : string := rstrip (lstrip s).

(** [sub in s]. *)
Fixpoint contains (sub s : string) : bool :=
  prefix sub s ||
  match s with
  | EmptyString => false
  | String _ r => contains sub r
  end.

(** [s.split(sep)]: the pieces of [s] between the occurrences of [sep],
    found from the left and not overlapping. [skip] counts the characters
    of an occurrence that are still to be passed over, [cur] holds the
    current piece in reverse. *)
Fixpoint split_from (sep s : string) (skip : nat) (cur : list ascii)
  : list string :=
  match s with
  | EmptyString => [string_of_list_ascii (rev cur)]
  | String c r =>
      match skip with
      | S k => split_from sep r k cur
      | O =>
          if prefix sep s
          then string_of_list_ascii (rev cur)
               :: split_from sep r (String.length sep - 1) []
          else split_from sep r 0 (c :: cur)
      end
  end.

Definition split (s sep : string) : outcome (list string) :=
  match sep with
  | EmptyString => Raise ValueError
  | _ => Ok (split_from sep s 0 [])
  end.

Definition newline : ascii := ascii_of_nat 10.

(** [$]: the end of the string, or the newline that ends it. *)
Definition at_end (s : string) : bool :=
  String.eqb s EmptyString || String.eqb s (String newline EmptyString).

(** What is left of [s] after [.+$]: [s] starts with a non-empty run of
    characters other than newline that reaches [$]. *)
Fixpoint dot_plus_eol (s : string) : option string :=
  match s with
  | EmptyString => None
  | String c r =>
      if Ascii.eqb c newline then None
      else if at_end r then Some r
      else dot_plus_eol r
  end.

(** What is left of [s] after [\)$]. *)
Definition closes (s : string) : option string :=
  match s with
  | EmptyString => None
  | String c r => if Ascii.eqb c ")" && at_end r then Some r else None
  end.

(** What is left of [s] after [.+\)$]. *)
Fixpoint dot_plus_paren_eol (s : string) : option string :=
  match s with
  | EmptyString => None
  | String c r =>
      if Ascii.eqb c newline then None
      else match closes r with
           | Some rest => Some rest
           | None => dot_plus_paren_eol r
           end
  end.

(** [c not in s]. *)
Fixpoint free_of (c : ascii) (s : string) : bool :=
  match s with
  | EmptyString => true
  | String a r => negb (Ascii.eqb a c) && free_of c r
  end.

(** [re.sub(r'(\(.+\)|-.+)$', '', s)]: the leftmost match is removed; what
    follows it is empty or the final newline, where nothing matches. *)
Fixpoint strip_annotation (s : string) : string :=
  match s with
  | EmptyString => EmptyString
  | String c r =>
      let keep := String c (strip_annotation r) in
      if Ascii.eqb c "("
      then match dot_plus_paren_eol r with
           | Some rest => rest
           | None => keep
           end
      else if Ascii.eqb c "-"
      then match dot_plus_eol r with
           | Some rest => rest
           | None => keep
           end
      else keep
  end.

(* ===================================================================== *)
(** ** The environment and the effects *)

(** A record of the catalog search client: the fields the skill reads
    ([data[0]['artist']], [res[0]['browseId']]). *)
Record SearchResult : Type := {
  r_artist : string;
  r_browseId : string
}.

(** One call [self.yt.search(query, kind)]. *)
Inductive call : Type :=
  | YtSearch (query kind : string).

(** A computation: it extends the trace of the external calls and returns
    a value or raises. *)
Definition M (A : Type) : Type := list call -> outcome A * list call.

Definition ret {A} (a : A) : M A := fun t => (Ok a, t).

Definition throw {A} (e : exn) : M A := fun t => (Raise e, t).

Definition bind {A B} (m : M A) (f : A -> M B) : M B :=
  fun t =>
    match m t with
    | (Ok a, t') => f a t'
    | (Raise e, t') => (Raise e, t')
    end.

Definition lift {A} (o : outcome A) : M A :=
  match o with
  | Ok a => ret a
  | Raise e => throw e
  end.

Declare Scope py_scope.
Delimit Scope py_scope with py.
Notation "x <- m ;; k" := (bind m (fun x => k))
  (at level 61, m at next level, right associativity) : py_scope.
Notation "' pat <- m ;; k" :=
  (bind m (fun x => match x with pat => k end))
  (at level 61, pat pattern, m at next level, right associativity) : py_scope.

Record Env : Type := {
  (** [self.yt.search(query, kind)] *)
  yt_search : string -> string -> list SearchResult;
  (** [self.translate(word)] *)
  translate : string -> string;
  (** [re.sub(self.translate_regex('on_youtube'), '', phrase)] *)
  sub_on_youtube : string -> string;
  (** [re.match(self.translate_regex(name), phrase)]: [None] when the
      pattern does not match, else the match's [groupdict()] *)
  re_match : string -> string -> option (list (string * string));
  (** [mycroft.util.parse.fuzzy_match] *)
  fuzzy_match : string -> string -> Q;
  (** [self.get_best_public_playlist(phrase)] *)
  get_best_public_playlist : string -> M pyval
}.

Definition search (env : Env) (query kind : string) : M (list SearchResult) :=
  fun t => (Ok (yt_search env query kind), (t ++ [YtSearch query kind])%list).

(** [match.groupdict()[name]]. *)
Fixpoint group (gd : list (string * string)) (name : string)
  : outcome string :=
  match gd with
  | [] => Raise KeyError
  | (k, v) :: rest => if String.eqb k name then Ok v else group rest name
  end.

(* ===================================================================== *)
(** ** The module's constants and functions *)

Definition NOTHING_FOUND : pyval := PTuple [PNone; PFloat 0.0].

Definition DIRECT_RESPONSE_CONFIDENCE : Q := 0.8.

Definition MATCH_CONFIDENCE : Q := 0.5.

(** [results[0]]. *)
Definition best_result (results : list pyval) : outcome pyval :=
  match results with
  | r :: _ => Ok r
  | [] => Raise IndexError
  end.

Definition best_confidence (fm : string -> string -> Q) (title query : string)
  : Q :=
  let best := lower title in
  let best_stripped := strip (strip_annotation best) in
  Qmax (fm best query) (fm best_stripped query).

Section Resolvers.

Variable env : Env.
Local Open Scope py_scope.

Definition continue_playback (phrase : string) (bonus : Q) : M pyval :=
  if String.eqb (strip phrase) "youtube"
  then ret (PTuple [PFloat 1.0;
                    PDict [("data", PNone); ("name", PNone);
                           ("type", PStr "continue")]])
  else ret NOTHING_FOUND.

Definition query_artist (artist : string) (bonus : Q) : M pyval :=
  let bonus := bonus + 0.1 in
  data <- search env artist "artists" ;;
  match data with
  | d0 :: _ =>
      let best := d0.(r_artist) in
      let confidence := fuzzy_match env best (lower artist) + bonus in
      let confidence := Qmin confidence 1.0 in
      ret (PTuple [PFloat confidence;
                   PDict [("browseId", PStr d0.(r_browseId)); ("name", PNone);
                          ("type", PStr "artist")]])
  | [] => ret NOTHING_FOUND
  end.

(** The shared head of [query_album] and [query_song]: the search string
    for [text], and whether the connector clause was found.
    [a, b = text.split(by_word)] raises [ValueError] unless the split has
    two pieces. *)
Definition by_split (text : string) : outcome (string * bool) :=
  let by_word := " " ++ translate env "by" ++ " " in
  match split text by_word with
  | Raise e => Raise e
  | Ok parts =>
      if (1 <? List.length parts)%nat
      then match parts with
           | [a; b] => Ok ("*" ++ a ++ "* artist:" ++ b, true)
           | _ => Raise ValueError
           end
      else Ok (text, false)
  end.

Definition query_album (album : string) (bonus : Q) : M pyval :=
  ' (album_search, found_by) <- lift (by_split album) ;;
  let bonus := if found_by then bonus + 0.1 else bonus in
  res <- search env album_search "albums" ;;
  match res with
  | r0 :: _ =>
      ret (PTuple [PFloat 0.7;
                   PDict [("type", PStr "album");
                          ("browseId", PStr r0.(r_browseId))]])
  | [] => ret NOTHING_FOUND
  end.

Definition query_song (song : string) (bonus : Q) : M pyval :=
  ' (song_search, _) <- lift (by_split song) ;;
  res <- search env song_search "songs" ;;
  ret PNone.

End Resolvers.

(** A method of the skill that resolves a text and a bonus. *)
Definition resolver : Type := string -> Q -> M pyval.

Section Router.

Local Open Scope py_scope.

(** The methods that [generic_query] and [CPS_match_query_phrase] reach
    through [self]. *)
Variables self_query_artist self_query_song self_query_album : resolver.
Variable self_get_best_public_playlist : string -> M pyval.

(** One block of [generic_query]: a result above
    [DIRECT_RESPONSE_CONFIDENCE] is returned at once ([inl]); one above
    [MATCH_CONFIDENCE] is appended to [results]. *)
Definition consider (r : pyval) (results : list pyval)
  : M (pyval + list pyval) :=
  ' (conf, data) <- lift (unpack2 r) ;;
  direct <- lift (and_gt conf DIRECT_RESPONSE_CONFIDENCE) ;;
  if direct then ret (inl (PTuple [conf; data]))
  else
    good <- lift (and_gt conf MATCH_CONFIDENCE) ;;
    if good then ret (inr (results ++ [PTuple [conf; data]])%list)
    else ret (inr results).

Definition generic_query_with (phrase : string) (bonus : Q) : M pyval :=
  let results := [] in
  (* Check for artist *)
  r <- self_query_artist phrase bonus ;;
  step <- consider r results ;;
  match step with
  | inl found => ret found
  | inr results =>
  (* Check for track *)
  r <- self_query_song phrase bonus ;;
  step <- consider r results ;;
  match step with
  | inl found => ret found
  | inr results =>
  (* Check for album *)
  r <- self_query_album phrase bonus ;;
  step <- consider r results ;;
  match step with
  | inl found => ret found
  | inr results =>
  (* Check for public playlist *)
  r <- self_get_best_public_playlist phrase ;;
  step <- consider r results ;;
  match step with
  | inl found => ret found
  | inr results => lift (best_result results)
  end end end end.

Variable env : Env.

Definition specific_query_with (phrase : string) (bonus : Q) : M pyval :=
  (* Check album *)
  match re_match env "album" phrase with
  | Some gd =>
      let bonus := bonus + 0.1 in
      album <- lift (group gd "album") ;;
      self_query_album album bonus
  | None =>
  (* Check artist *)
  match re_match env "artist" phrase with
  | Some gd =>
      artist <- lift (group gd "artist") ;;
      self_query_artist artist bonus
  | None =>
  match re_match env "song" phrase with
  | Some gd =>
      song <- lift (group gd "track") ;;
      self_query_song song bonus
  | None => ret NOTHING_FOUND
  end end end.

Variables self_continue_playback self_specific_query self_generic_query
  : resolver.

(** The part of [CPS_match_query_phrase] after the three lookups. *)
Definition match_result (youtube_specified : bool) (phrase : string)
    (confidence data : pyval) : outcome pyval :=
  if truthy data then
    match dict_get data "type" with
    | Raise e => Raise e
    | Ok ty =>
        if in_strs ty ["saved_tracks"; "album"; "artist";
                       "track"; "playlist"; "show"]
        then
          if youtube_specified
          then Ok (PTuple [PStr phrase; PLevel EXACT; data])
          else
            match gt_float confidence 0.9 with
            | Raise e => Raise e
            | Ok true =>
                Ok (PTuple [PStr (phrase ++ " on youtube");
                            PLevel TITLE; data])
            | Ok false =>
                match lt_float confidence 0.5 with
                | Raise e => Raise e
                | Ok true =>
                    Ok (PTuple [PStr (phrase ++ " on youtube");
                                PLevel GENERIC; data])
                | Ok false =>
                    Ok (PTuple [PStr (phrase ++ " on youtube");
                                PLevel TITLE; data])
                end
            end
        else if eq_str ty "continue"
        then
          if youtube_specified
          then Ok (PTuple [PStr phrase; PLevel EXACT; data])
          else Ok (PTuple [PStr (phrase ++ " on youtube");
                           PLevel GENERIC; data])
        else Ok (PTuple [PStr phrase; PLevel GENERIC; data])
    end
  else Ok PNone.

Definition CPS_match_query_phrase_with (phrase : string) : M pyval :=
  let youtube_specified := contains "youtube" phrase in
  let bonus := if youtube_specified then 0.1 else 0.0 in
  let phrase := sub_on_youtube env phrase in
  r <- self_continue_playback phrase bonus ;;
  ' (confidence, data) <- lift (unpack2 r) ;;
  ' (confidence, data) <-
     (if negb (truthy data)
      then
        r <- self_specific_query phrase bonus ;;
        ' (confidence, data) <- lift (unpack2 r) ;;
        if negb (truthy data)
        then
          r <- self_generic_query phrase bonus ;;
          lift (unpack2 r)
        else ret (confidence, data)
      else ret (confidence, data)) ;;
  lift (match_result youtube_specified phrase confidence data).

End Router.

(** The skill's own methods: every [self.<method>] is the class's. *)
Definition generic_query (env : Env) : resolver :=
  generic_query_with (query_artist env) (query_song env) (query_album env)
    (get_best_public_playlist env).

Definition specific_query (env : Env) : resolver :=
  specific_query_with (query_artist env) (query_song env) (query_album env)
    env.

Definition CPS_match_query_phrase (env : Env) (phrase : string) : M pyval :=
  CPS_match_query_phrase_with env continue_playback (specific_query env)
    (generic_query env) phrase.

(* ===================================================================== *)
(** ** A small catalog to run the skill on *)

Fixpoint after_prefix (pre s : string) : option string :=
  match pre, s with
  | EmptyString, _ => Some s
  | String a p, String b r => if Ascii.eqb a b then after_prefix p r else None
  | String _ _, EmptyString => None
  end.

Fixpoint drop_on_youtube (s : string) : string :=
  if String.eqb s " on youtube" then EmptyString
  else match s with
       | EmptyString => EmptyString
       | String c r => String c (drop_on_youtube r)
       end.

Definition demo_search (query kind : string) : list SearchResult :=
  if String.eqb kind "artists" then
    if String.eqb query "queen"
    then [{| r_artist := "Queen"; r_browseId := "UC-queen" |}]
    else if String.eqb query "abba gold"
    then [{| r_artist := "ABBA"; r_browseId := "UC-abba" |}]
    else []
  else if String.eqb kind "albums" then
    if String.eqb query "abba gold"
       || String.eqb query "*abbey road* artist:the beatles"
       || String.eqb query "stand by me by ben e king"
    then [{| r_artist := ""; r_browseId := "MPRE-1" |}]
    else []
  else
    if String.eqb query "xyzzy" then []
    else [{| r_artist := ""; r_browseId := "VID-1" |}].

(** 1 on equal strings up to case, 0.5 when the first occurs in the
    second, else 0. *)
Definition demo_fuzzy (a b : string) : Q :=
  if String.eqb (lower a) (lower b) then 1.0
  else if contains (lower a) (lower b) then 0.5
  else 0.0.

(** Equality of the strings as they are, case included. *)
Definition exact_fuzzy (a b : string) : Q :=
  if String.eqb a b then 1.0 else 0.0.

Definition demo_re_match (name phrase : string)
  : option (list (string * string)) :=
  if String.eqb name "album" then
    option_map (fun x => [("album", x)]) (after_prefix "the album " phrase)
  else if String.eqb name "artist" then
    option_map (fun x => [("artist", x)]) (after_prefix "the artist " phrase)
  else if String.eqb name "song" then
    option_map (fun x => [("track", x)]) (after_prefix "the song " phrase)
  else None.

Definition demo_env : Env := {|
  yt_search := demo_search;
  translate := fun w => w;
  sub_on_youtube := drop_on_youtube;
  re_match := demo_re_match;
  fuzzy_match := demo_fuzzy;
  get_best_public_playlist := fun _ => ret NOTHING_FOUND
|}.

(** The confidence of a result, when it is a pair that has one. *)
Definition confidence_of (r : pyval) : option Q :=
  match r with
  | PTuple [PFloat c; _] => Some c
  | _ => None
  end.

(** [r] is a (confidence, data) pair. *)
Definition is_pair (r : pyval) : bool :=
  match r with
  | PTuple [_; _] => true
  | _ => false
  end.

(** The confidence of an outcome lies in [0, 1], where it has one. *)
Definition confidence_in_unit (o : outcome pyval) : Prop :=
  match o with
  | Ok r =>
      match confidence_of r with
      | Some c => 0 <= c /\ c <= 1
      | None => True
      end
  | Raise _ => True
  end.

(** The confidence of an outcome is at most [x], where it has one. *)
Definition confidence_at_most (x : Q) (o : outcome pyval) : Prop :=
  match o with
  | Ok r =>
      match confidence_of r with
      | Some c => c <= x
      | None => True
      end
  | Raise _ => True
  end.

(** Both outcomes have a confidence, and the first is at most the second. *)
Definition confidence_le (o1 o2 : outcome pyval) : Prop :=
  match o1, o2 with
  | Ok r1, Ok r2 =>
      match confidence_of r1, confidence_of r2 with
      | Some c1, Some c2 => c1 <= c2
      | _, _ => False
      end
  | _, _ => False
  end.

(** A resolver that conforms to the documented result type: it issues one
    search of kind [kind] for the text and answers the pair [(c, d)]. *)
Definition answering (kind : string) (c : Q) (d : pyval) : resolver :=
  fun text _ t =>
    (Ok (PTuple [PFloat c; d]), (t ++ [YtSearch text kind])%list).

(** The generic fallback as the specification words it: the answers are
    taken in order; one above 0.8 is returned at once; one above 0.5 is
    accumulated; when all are taken the first accumulated one is returned. *)
Fixpoint route (phrase : string) (answers : list (string * Q * pyval))
    (results : list pyval) (t : list call) : outcome pyval * list call :=
  match answers with
  | [] => (best_result results, t)
  | (kind, c, d) :: rest =>
      let t' := (t ++ [YtSearch phrase kind])%list in
      if Qltb DIRECT_RESPONSE_CONFIDENCE c then (Ok (PTuple [PFloat c; d]), t')
      else if Qltb MATCH_CONFIDENCE c
           then route phrase rest (results ++ [PTuple [PFloat c; d]]) t'
           else route phrase rest results t'
  end.

(** A generic fallback that conforms to the documented result type and
    finds nothing. *)
Definition nothing_found_resolver : resolver :=
  fun _ _ => ret NOTHING_FOUND.

(* ===================================================================== *)
(** ** The skill object: playback, ducking and the pattern cache *)

(** What the handlers below can raise: a builtin exception, or the
    module's [PlaylistNotFoundError]. *)
Inductive raised : Type :=
  | Builtin (e : exn)
  | PlaylistNotFoundError.

Inductive res (A : Type) : Type :=
  | Done (a : A)
  | Fail (r : raised).
Arguments Done {A} a.
Arguments Fail {A} r.

(** The calls the skill makes on the platform and on the catalog client. *)
Inductive event : Type :=
  | AudioPause                                   (* self.audioservice.pause() *)
  | AudioResume                                  (* self.audioservice.resume() *)
  | AudioNext                                    (* self.audioservice.next_track() *)
  | AudioPrev                                    (* self.audioservice.prev_track() *)
  | CancelScheduled (name : string)              (* self.cancel_scheduled_event *)
  | ScheduleRepeating (name : string) (every : Z) (* self.schedule_repeating_event *)
  | AddEvent (name : string)                     (* self.add_event *)
  | Acknowledge                                  (* self.acknowledge() *)
  | EnableIntent (name : string)                 (* self.enable_intent *)
  | DisableIntent (name : string)                (* self.disable_intent *)
  | GetAlbum (browse_id : pyval)                 (* self.yt.get_album *)
  | GetArtist (browse_id : pyval)                (* self.yt.get_artist *)
  | ReadResource (path : string)                 (* open(path).read() *)
  | SpeakDialog (key : string)                   (* self.speak_dialog(key) *)
  | PlaybackFailed (reason : raised)             (* speak_dialog('PlaybackFailed', ...) *)
  | Emit (message : string).                     (* self.bus.emit(Message(...)) *)

(** The attributes of the object that the handlers read and write. *)
Record Skill : Type := {
  idle_count : Z;
  ducking : bool;
  last_played_type : pyval;
  is_playing : bool;
  regexes : list (string * string)
}.

(** [__init__]. *)
Definition new_skill : Skill := {|
  idle_count := 0%Z;
  ducking := false;
  last_played_type := PNone;
  is_playing := false;
  regexes := []
|}.

(** The platform around the object: the catalog client's lookups by id,
    as the ids of the tracks they list ([t['videoId']] over
    [album['tracks']], over [artist['songs']['results']]) or what they
    raise, and the resource files. *)
Record Platform : Type := {
  get_album : pyval -> res (list string);
  get_artist : pyval -> res (list string);
  find_resource : string -> option string;
  read_resource : string -> string
}.

(** A handler: it changes the object, adds to the calls made, and returns
    or raises. Attributes set before a raise stay set. *)
Definition P (A : Type) : Type :=
  Skill -> list event -> res A * Skill * list event.

Definition pret {A} (a : A) : P A := fun s l => (Done a, s, l).

Definition pfail {A} (r : raised) : P A := fun s l => (Fail r, s, l).

Definition pbind {A B} (m : P A) (f : A -> P B) : P B :=
  fun s l =>
    match m s l with
    | (Done a, s', l') => f a s' l'
    | (Fail r, s', l') => (Fail r, s', l')
    end.

Definition plift {A} (r : res A) : P A :=
  match r with
  | Done a => pret a
  | Fail e => pfail e
  end.

Definition call_out (e : event) : P unit :=
  fun s l => (Done tt, s, (l ++ [e])%list).

Definition read_self : P Skill := fun s l => (Done s, s, l).

Definition write_self (f : Skill -> Skill) : P unit :=
  fun s l => (Done tt, f s, l).

(** [try: body except PlaylistNotFoundError: h1 except Exception as e: h2]. *)
Definition try_except (body : P unit) (handler : raised -> P unit) : P unit :=
  fun s l =>
    match body s l with
    | (Done a, s', l') => (Done a, s', l')
    | (Fail r, s', l') => handler r s' l'
    end.

Declare Scope skill_scope.
Delimit Scope skill_scope with skill.
Notation "x <-- m ;; k" := (pbind m (fun x => k))
  (at level 61, m at next level, right associativity) : skill_scope.
Notation "m ;;; k" := (pbind m (fun _ => k))
  (at level 61, right associativity) : skill_scope.

Definition set_idle_count (n : Z) (s : Skill) : Skill :=
  {| idle_count := n; ducking := ducking s;
     last_played_type := last_played_type s; is_playing := is_playing s;
     regexes := regexes s |}.

Definition set_ducking (b : bool) (s : Skill) : Skill :=
  {| idle_count := idle_count s; ducking := b;
     last_played_type := last_played_type s; is_playing := is_playing s;
     regexes := regexes s |}.

Definition set_last_played_type (v : pyval) (s : Skill) : Skill :=
  {| idle_count := idle_count s; ducking := ducking s;
     last_played_type := v; is_playing := is_playing s;
     regexes := regexes s |}.

Definition set_is_playing (b : bool) (s : Skill) : Skill :=
  {| idle_count := idle_count s; ducking := ducking s;
     last_played_type := last_played_type s; is_playing := b;
     regexes := regexes s |}.

Definition set_regexes (r : list (string * string)) (s : Skill) : Skill :=
  {| idle_count := idle_count s; ducking := ducking s;
     last_played_type := last_played_type s; is_playing := is_playing s;
     regexes := r |}.

(** [key in d], [d[key]] and [d[key] = v] on a dict with string keys. *)
Fixpoint dict_find {A} (d : list (string * A)) (key : string) : option A :=
  match d with
  | [] => None
  | (k, v) :: rest => if String.eqb k key then Some v else dict_find rest key
  end.

Fixpoint dict_set {A} (d : list (string * A)) (key : string) (v : A)
  : list (string * A) :=
  match d with
  | [] => [(key, v)]
  | (k, w) :: rest =>
      if String.eqb k key then (k, v) :: rest
      else (k, w) :: dict_set rest key v
  end.

(** [data[key]]. *)
Definition subscript (data : pyval) (key : string) : res pyval :=
  match data with
  | PDict d =>
      match dict_find d key with
      | Some v => Done v
      | None => Fail (Builtin KeyError)
      end
  | _ => Fail (Builtin TypeError)
  end.

Section Handlers.

Variable platform : Platform.
Local Open Scope skill_scope.

Definition translate_regex (regex : string) : P string :=
  s <-- read_self ;;
  (match dict_find (regexes s) regex with
   | None =>
       match find_resource platform (regex ++ ".regex") with
       | Some path =>
           if str_nonempty path
           then
             call_out (ReadResource path) ;;;
             let string := strip (read_resource platform path) in
             write_self (fun s => set_regexes (dict_set (regexes s) regex string) s)
           else pret tt
       | None => pret tt
       end
   | Some _ => pret tt
   end) ;;;
  s <-- read_self ;;
  match dict_find (regexes s) regex with
  | Some string => pret string
  | None => pfail (Builtin KeyError)
  end.

(** [__pause]. *)
Definition pause_audio : P unit := call_out AudioPause.

Definition pause : P unit :=
  write_self (set_ducking false) ;;;
  pause_audio.

Definition resume : P unit := call_out AudioResume.

Definition next_track : P unit := call_out AudioNext.

Definition prev_track : P unit := call_out AudioPrev.

Definition do_stop : P unit := pause.

Definition stop : P bool :=
  s <-- read_self ;;
  if is_playing s then do_stop ;;; pret true
  else pret false.

Definition handle_stop : P unit := call_out (Emit "mycroft.stop").

(** [use_ducking] is the truth of [self.settings.get('use_ducking', False)]. *)
Definition handle_listener_started (use_ducking : bool) : P unit :=
  s <-- read_self ;;
  if is_playing s && use_ducking then
    pause_audio ;;;
    write_self (set_ducking true) ;;;
    (* Start idle check *)
    write_self (set_idle_count 0%Z) ;;;
    call_out (CancelScheduled "IdleCheck") ;;;
    call_out (ScheduleRepeating "IdleCheck" 1%Z)
  else pret tt.

(** [active] is what [self.enclosure.display_manager.get_active()]
    returns. *)
Definition check_for_idle (active : string) : P unit :=
  s <-- read_self ;;
  if negb (ducking s) then call_out (CancelScheduled "IdleCheck")
  else
    if negb (String.eqb active "") || String.eqb active "YoutubeMusicSkill"
    then
      (* No activity, start to fall asleep *)
      write_self (fun s => set_idle_count (idle_count s + 1)%Z s) ;;;
      s <-- read_self ;;
      if (5 <=? idle_count s)%Z then
        (* Resume playback after 5 seconds of being idle *)
        call_out (CancelScheduled "IdleCheck") ;;;
        write_self (set_ducking false) ;;;
        resume
      else pret tt
    else write_self (set_idle_count 0%Z).

Definition stop_monitor : P unit := call_out (CancelScheduled "MonitorYoutube").

Definition start_monitor : P unit :=
  stop_monitor ;;;
  call_out (ScheduleRepeating "MonitorYoutube" 5%Z) ;;;
  call_out (AddEvent "recognizer_loop:record_begin").

Definition shutdown : P unit := stop_monitor.

Definition enable_playing_intents : P unit :=
  call_out (EnableIntent "WhatSong.intent") ;;;
  call_out (EnableIntent "WhatAlbum.intent") ;;;
  call_out (EnableIntent "WhatArtist.intent") ;;;
  call_out (EnableIntent "StopMusic.intent").

Definition disable_playing_intents : P unit :=
  call_out (DisableIntent "WhatSong.intent") ;;;
  call_out (DisableIntent "WhatAlbum.intent") ;;;
  call_out (DisableIntent "WhatArtist.intent") ;;;
  call_out (DisableIntent "StopMusic.intent").

(** It logs only. *)
Definition play_playlist (playlist_id : pyval) : P unit := pret tt.

Definition play_album (browse_id : pyval) : P unit :=
  call_out (GetAlbum browse_id) ;;;
  tracks <-- plift (get_album platform browse_id) ;;
  pret tt.

(** [pprint(tracks[0])] needs a first track. *)
Definition play_artist (browse_id : pyval) : P unit :=
  call_out (GetArtist browse_id) ;;;
  tracks <-- plift (get_artist platform browse_id) ;;
  match tracks with
  | _ :: _ => pret tt
  | [] => pfail (Builtin IndexError)
  end.

(** The [continue] branch calls [self.continue_current_playlist(dev)]: the
    class has no such method and the module no name [dev], so the call
    raises ([AttributeError], the method being looked up first). *)
Definition CPS_start (phrase : string) (data : pyval) : P unit :=
  try_except
    (ty <-- plift (subscript data "type") ;;
     (if eq_str ty "continue" then
        call_out Acknowledge ;;;
        pfail (Builtin AttributeError)
      else if eq_str ty "playlist" then
        playlist_id <-- plift (subscript data "playlistId") ;;
        play_playlist playlist_id
      else if eq_str ty "artist" then
        browse_id <-- plift (subscript data "browseId") ;;
        play_artist browse_id
      else if eq_str ty "album" then
        browse_id <-- plift (subscript data "browseId") ;;
        play_album browse_id
      else pret tt) ;;;
     enable_playing_intents ;;;
     (if truthy ty && negb (eq_str ty "continue")
      then write_self (set_last_played_type ty)
      else pret tt) ;;;
     write_self (set_is_playing true))
    (fun r => call_out (PlaybackFailed r)).

End Handlers.

(** What the platform can ask of the object. *)
Inductive request : Type :=
  | ListenerStarted (use_ducking : bool)
  | IdleCheck (active : string)
  | Pause
  | Resume
  | NextTrack
  | PrevTrack
  | Stop
  | Start (phrase : string) (data : pyval)
  | StartMonitor
  | Shutdown.

Definition forget {A} (m : P A) : P unit :=
  fun s l =>
    match m s l with
    | (Done _, s', l') => (Done tt, s', l')
    | (Fail r, s', l') => (Fail r, s', l')
    end.

Definition handle (platform : Platform) (r : request) : P unit :=
  match r with
  | ListenerStarted use_ducking => handle_listener_started use_ducking
  | IdleCheck active => check_for_idle active
  | Pause => pause
  | Resume => resume
  | NextTrack => next_track
  | PrevTrack => prev_track
  | Stop => forget stop
  | Start phrase data => CPS_start platform phrase data
  | StartMonitor => start_monitor
  | Shutdown => shutdown
  end.

(** The object and the calls made after a sequence of requests. *)
Fixpoint serve (platform : Platform) (rs : list request) (s : Skill)
    (l : list event) : Skill * list event :=
  match rs with
  | [] => (s, l)
  | r :: rest =>
      match handle platform r s l with
      | (_, s', l') => serve platform rest s' l'
      end
  end.

(** A platform whose catalog has two albums and one artist with songs. *)
Definition demo_platform : Platform := {|
  get_album := fun id =>
    if eq_str id "MPRE-1" then Done ["v1"; "v2"] else Fail (Builtin KeyError);
  get_artist := fun id =>
    if eq_str id "UC-queen" then Done ["q1"]
    else if eq_str id "UC-abba" then Done []
    else Fail (Builtin KeyError);
  find_resource := fun name =>
    if String.eqb name "album.regex"
    then Some "/skill/regex/en-us/album.regex"
    else None;
  read_resource := fun _ => "(the )?album (?P<album>.+) "
|}.

(** The candidates the resolvers of the file build. *)
Definition continue_candidate : pyval :=
  PDict [("data", PNone); ("name", PNone); ("type", PStr "continue")].

Definition album_candidate (id : string) : pyval :=
  PDict [("type", PStr "album"); ("browseId", PStr id)].

Definition artist_candidate (id : string) : pyval :=
  PDict [("browseId", PStr id); ("name", PNone); ("type", PStr "artist")].

(** [t'] is [t] with at most [n] more searches. *)
Definition grows_by (n : nat) (t t' : list call) : Prop :=
  exists more, t' = (t ++ more)%list /\ (List.length more <= n)%nat.

(** The calls made from the [n]-th on. *)
Definition since {A} (n : nat) (l : list A) : list A := skipn n l.

(** The number of [AudioResume] calls. *)
Fixpoint resumes (l : list event) : nat :=
  match l with
  | [] => O
  | AudioResume :: rest => S (resumes rest)
  | _ :: rest => resumes rest
  end.

(** Whether a [PlaybackFailed] dialog is among the calls. *)
Fixpoint failed (l : list event) : bool :=
  match l with
  | [] => false
  | PlaybackFailed _ :: _ => true
  | _ :: rest => failed rest
  end.

(** The number of calls on the audio service. *)
Fixpoint audio_calls (l : list event) : nat :=
  match l with
  | [] => O
  | (AudioPause | AudioResume | AudioNext | AudioPrev) :: rest =>
      S (audio_calls rest)
  | _ :: rest => audio_calls rest
  end.

(** The idle counter stays within its five steps, and the object ducks
    only while it is playing and the counter has not run out. *)
Definition sound (s : Skill) : Prop :=
  (0 <= idle_count s <= 5)%Z
  /\ (ducking s = true -> (idle_count s < 5)%Z /\ is_playing s = true).

(** The object after a successful start of a candidate of type [ty]. *)
Definition started (ty : pyval) (s : Skill) : Skill :=
  set_is_playing true
    (if truthy ty && negb (eq_str ty "continue")
     then set_last_played_type ty s else s).

Definition playing_intents : list event :=
  [EnableIntent "WhatSong.intent"; EnableIntent "WhatAlbum.intent";
   EnableIntent "WhatArtist.intent"; EnableIntent "StopMusic.intent"].

(** The dispatch of [CPS_start] on the type of the candidate: the calls
    it makes before the intents are enabled, and what it raises if it
    does. *)
Definition dispatch (platform : Platform) (data ty : pyval)
  : list event * option raised :=
  if eq_str ty "continue" then ([Acknowledge], Some (Builtin AttributeError))
  else if eq_str ty "playlist" then
    match subscript data "playlistId" with
    | Done _ => ([], None)
    | Fail r => ([], Some r)
    end
  else if eq_str ty "artist" then
    match subscript data "browseId" with
    | Done id =>
        match get_artist platform id with
        | Done (_ :: _) => ([GetArtist id], None)
        | Done [] => ([GetArtist id], Some (Builtin IndexError))
        | Fail r => ([GetArtist id], Some r)
        end
    | Fail r => ([], Some r)
    end
  else if eq_str ty "album" then
    match subscript data "browseId" with
    | Done id =>
        match get_album platform id with
        | Done _ => ([GetAlbum id], None)
        | Fail r => ([GetAlbum id], Some r)
        end
    | Fail r => ([], Some r)
    end
  else ([], None).

(** The small catalog with a song pattern whose group is named [song]. *)
Definition demo_env_song_group : Env := {|
  yt_search := demo_search;
  translate := fun w => w;
  sub_on_youtube := drop_on_youtube;
  re_match := fun name phrase =>
    if String.eqb name "song"
    then option_map (fun x => [("song", x)]) (after_prefix "the song " phrase)
    else None;
  fuzzy_match := demo_fuzzy;
  get_best_public_playlist := fun _ => ret NOTHING_FOUND
|}.





(* ===================================================================== *)
(** ** Runs on the small catalog *)

Example split_one :
  split "abbey road by the beatles" " by " = Ok ["abbey road"; "the beatles"].
Proof. reflexivity. Qed.

Example split_none : split "abbey road" " by " = Ok ["abbey road"].
Proof. reflexivity. Qed.

Example split_two :
  split "stand by me by ben e king" " by "
  = Ok ["stand"; "me"; "ben e king"].
Proof. reflexivity. Qed.

Example strip_annotation_paren :
  strip (strip_annotation (lower "Imagine (Remastered 2010)")) = "imagine".
Proof. reflexivity. Qed.

Example strip_annotation_dash :
  strip (strip_annotation (lower "Heroes - 2017 Remaster")) = "heroes".
Proof. reflexivity. Qed.

Example strip_annotation_inner :
  strip_annotation "a (b) c" = "a (b) c".
Proof. reflexivity. Qed.

Example strip_annotation_first_paren :
  strip_annotation "a (b) c (d)" = "a ".
Proof. reflexivity. Qed.

Example strip_annotation_hyphen : strip_annotation "jay-z" = "jay".
Proof. reflexivity. Qed.

Example strip_annotation_final_newline :
  strip_annotation ("a (b)" ++ String newline EmptyString)
  = "a " ++ String newline EmptyString.
Proof. reflexivity. Qed.

Example strip_annotation_empty_group : strip_annotation "a ()" = "a ()".
Proof. reflexivity. Qed.

Example run_continue :
  CPS_match_query_phrase demo_env "youtube" []
  = (Ok (PTuple [PStr "youtube"; PLevel EXACT;
                 PDict [("data", PNone); ("name", PNone);
                        ("type", PStr "continue")]]), []).
Proof. reflexivity. Qed.

Example run_artist :
  CPS_match_query_phrase demo_env "queen" []
  = (Ok (PTuple [PStr "queen on youtube"; PLevel TITLE;
                 PDict [("browseId", PStr "UC-queen"); ("name", PNone);
                        ("type", PStr "artist")]]),
     [YtSearch "queen" "artists"]).
Proof. reflexivity. Qed.

Example run_album :
  CPS_match_query_phrase demo_env "the album abbey road by the beatles" []
  = (Ok (PTuple [PStr "the album abbey road by the beatles on youtube";
                 PLevel TITLE;
                 PDict [("type", PStr "album");
                        ("browseId", PStr "MPRE-1")]]),
     [YtSearch "*abbey road* artist:the beatles" "albums"]).
Proof. reflexivity. Qed.

(* ===================================================================== *)
(** ** Comparisons *)

Lemma Qltb_lt (x y : Q) : Qltb x y = true <-> x < y.
Proof.
  unfold Qltb. rewrite negb_true_iff. split.
  - intros H. apply Qnot_le_lt. intros Hle.
    apply Qle_bool_iff in Hle. congruence.
  - intros H. destruct (Qle_bool y x) eqn:E; [|reflexivity].
    apply Qle_bool_iff in E. exfalso. exact (Qlt_not_le _ _ H E).
Qed.

Lemma Qltb_ge (x y : Q) : Qltb x y = false <-> y <= x.
Proof.
  unfold Qltb. rewrite negb_false_iff. apply Qle_bool_iff.
Qed.

(* ===================================================================== *)
(** ** The sentinel *)

(** C4. The sentinel unpacks to the confidence [None] and to the data
    [0.0]: its candidate component is a float, not [None], against the
    comment above its definition. Its confidence component is [None], which
    no float equals. *)
Theorem NOTHING_FOUND_components :
  unpack2 NOTHING_FOUND = Ok (PNone, PFloat 0.0)
  /\ PFloat 0.0 <> PNone
  /\ (forall q, confidence_of NOTHING_FOUND <> Some q)
  /\ (forall phrase bonus t,
        String.eqb (strip phrase) "youtube" = false ->
        continue_playback phrase bonus t = (Ok NOTHING_FOUND, t)).
Proof.
  repeat split; try discriminate.
  intros phrase bonus t H. unfold continue_playback. now rewrite H.
Qed.

Lemma NOTHING_FOUND_components_witness :
  unpack2 NOTHING_FOUND = Ok (PNone, PFloat 0.0)
  /\ continue_playback "some jazz" 0.0 [] = (Ok NOTHING_FOUND, []).
Proof.
  destruct NOTHING_FOUND_components as (H1 & _ & _ & H4).
  split; [exact H1 | apply H4; reflexivity].
Defined.

(** The data of the sentinel is not truthy: [not data] holds of it. *)
Lemma NOTHING_FOUND_falsy :
  exists c d, unpack2 NOTHING_FOUND = Ok (c, d) /\ truthy d = false.
Proof. exists PNone, (PFloat 0.0). split; reflexivity. Qed.

(* ===================================================================== *)
(** ** The resolvers *)

Section ResolverFacts.

Variable env : Env.

Lemma by_split_cases (text : string) :
  (exists q found, by_split env text = Ok (q, found))
  \/ by_split env text = Raise ValueError.
Proof.
  unfold by_split, split. simpl.
  destruct (split_from _ text 0 []) as [|a [|b [|c l]]]; simpl; eauto.
Qed.

(** The search string of a text that holds the connector once. *)
Lemma by_split_two (text a b : string) :
  split text (" " ++ translate env "by" ++ " ") = Ok [a; b] ->
  by_split env text = Ok ("*" ++ a ++ "* artist:" ++ b, true).
Proof. unfold by_split. intros ->. reflexivity. Qed.

(** The search string of a text without the connector. *)
Lemma by_split_one (text a : string) :
  split text (" " ++ translate env "by" ++ " ") = Ok [a] ->
  by_split env text = Ok (text, false).
Proof. unfold by_split. intros ->. reflexivity. Qed.

(** A text that holds the connector more than once cannot be unpacked. *)
Lemma by_split_many (text : string) (parts : list string) :
  split text (" " ++ translate env "by" ++ " ") = Ok parts ->
  (2 < List.length parts)%nat ->
  by_split env text = Raise ValueError.
Proof.
  unfold by_split. intros -> Hlen.
  destruct parts as [|a [|b [|c l]]]; simpl in *; try lia. reflexivity.
Qed.

(** Where the text unpacks, the album resolver issues one album search
    with the search string and answers 0.7 on any result, whatever the
    bonus and the titles found. *)
Lemma query_album_found (album q : string) (found : bool) (bonus : Q)
    (t : list call) :
  by_split env album = Ok (q, found) ->
  query_album env album bonus t =
    (Ok match yt_search env q "albums" with
        | r0 :: _ => PTuple [PFloat 0.7;
                             PDict [("type", PStr "album");
                                    ("browseId", PStr r0.(r_browseId))]]
        | [] => NOTHING_FOUND
        end,
     (t ++ [YtSearch q "albums"])%list).
Proof.
  intros H. unfold query_album, bind, lift, search. rewrite H. simpl.
  destruct (yt_search env q "albums"); reflexivity.
Qed.

(** C5. An album text that holds the connector more than once makes the
    album resolver raise [ValueError] before any search is issued: it
    returns neither the 0.7 candidate nor the sentinel. *)
Theorem query_album_many_connectors (album : string) (parts : list string)
    (bonus : Q) (t : list call) :
  split album (" " ++ translate env "by" ++ " ") = Ok parts ->
  (2 < List.length parts)%nat ->
  query_album env album bonus t = (Raise ValueError, t).
Proof.
  intros Hs Hlen. unfold query_album, bind, lift.
  rewrite (by_split_many album parts Hs Hlen). reflexivity.
Qed.

(** C3. The song resolver returns the bare [None] whenever it returns (it
    raises [ValueError] on a text with several connectors): never the
    sentinel pair, and a caller that unpacks its result raises
    [TypeError]. *)
Theorem query_song_returns_None (song : string) (bonus : Q) (t : list call) :
  (fst (query_song env song bonus t) = Ok PNone
   \/ fst (query_song env song bonus t) = Raise ValueError)
  /\ fst (query_song env song bonus t) <> Ok NOTHING_FOUND
  /\ PNone <> NOTHING_FOUND
  /\ unpack2 PNone = Raise TypeError.
Proof.
  unfold query_song, bind, lift, search.
  destruct (by_split_cases song) as [(q & found & H) | H]; rewrite H; simpl;
    repeat split; auto; discriminate.
Qed.

Lemma query_song_run (song q : string) (found : bool) (bonus : Q)
    (t : list call) :
  by_split env song = Ok (q, found) ->
  query_song env song bonus t = (Ok PNone, (t ++ [YtSearch q "songs"])%list).
Proof.
  intros H. unfold query_song, bind, lift, search. rewrite H. reflexivity.
Qed.

Lemma query_song_raise (song : string) (bonus : Q) (t : list call) :
  by_split env song = Raise ValueError ->
  query_song env song bonus t = (Raise ValueError, t).
Proof.
  intros H. unfold query_song, bind, lift. rewrite H. reflexivity.
Qed.

Lemma query_artist_run (artist : string) (bonus : Q) (t : list call) :
  query_artist env artist bonus t =
    (Ok match yt_search env artist "artists" with
        | d0 :: _ =>
            PTuple [PFloat (Qmin (fuzzy_match env d0.(r_artist) (lower artist)
                                  + (bonus + 0.1)) 1.0);
                    PDict [("browseId", PStr d0.(r_browseId));
                           ("name", PNone); ("type", PStr "artist")]]
        | [] => NOTHING_FOUND
        end,
     (t ++ [YtSearch artist "artists"])%list).
Proof.
  unfold query_artist, bind, search.
  destruct (yt_search env artist "artists"); reflexivity.
Qed.

End ResolverFacts.

(** The song resolver on a search that has results. *)
Example query_song_nonempty :
  demo_search "bohemian rhapsody" "songs" <> []
  /\ query_song demo_env "bohemian rhapsody" 0.0 []
     = (Ok PNone, [YtSearch "bohemian rhapsody" "songs"]).
Proof. split; [discriminate | reflexivity]. Qed.

Lemma query_album_many_connectors_witness :
  query_album demo_env "stand by me by ben e king" 0.1 []
  = (Raise ValueError, []).
Proof.
  apply (query_album_many_connectors demo_env "stand by me by ben e king"
           ["stand"; "me"; "ben e king"]).
  - reflexivity.
  - simpl. lia.
Defined.

(* ===================================================================== *)
(** ** The best of two similarities *)

Lemma lower_ascii_idem (c : ascii) : lower_ascii (lower_ascii c) = lower_ascii c.
Proof. destruct c as [[] [] [] [] [] [] [] []]; reflexivity. Qed.

Lemma lower_idem (s : string) : lower (lower s) = lower s.
Proof.
  induction s as [|c r IH]; simpl; [reflexivity|].
  now rewrite lower_ascii_idem, IH.
Qed.

Lemma lower_app (a b : string) : lower (a ++ b) = lower a ++ lower b.
Proof. induction a as [|c r IH]; simpl; [reflexivity | now rewrite IH]. Qed.

Lemma lower_ascii_mark (a : ascii) :
  Ascii.eqb (lower_ascii a) "(" = Ascii.eqb a "("
  /\ Ascii.eqb (lower_ascii a) "-" = Ascii.eqb a "-"
  /\ Ascii.eqb (lower_ascii a) newline = Ascii.eqb a newline.
Proof. destruct a as [[] [] [] [] [] [] [] []]; repeat split. Qed.

Lemma free_of_lower (c : ascii) (s : string) :
  c = "("%char \/ c = "-"%char \/ c = newline ->
  free_of c (lower s) = free_of c s.
Proof.
  intros Hc. induction s as [|a r IH]; simpl; [reflexivity|].
  rewrite IH. f_equal. f_equal.
  destruct (lower_ascii_mark a) as (H1 & H2 & H3).
  destruct Hc as [-> | [-> | ->]]; assumption.
Qed.

Lemma at_end_closing (s : string) : at_end (s ++ ")") = false.
Proof.
  destruct s as [|a [|b r]]; try reflexivity;
    unfold at_end; simpl; destruct (Ascii.eqb a newline); reflexivity.
Qed.

Lemma dot_plus_paren_eol_note (note : string) :
  note <> EmptyString -> free_of newline note = true ->
  dot_plus_paren_eol (note ++ ")") = Some EmptyString.
Proof.
  induction note as [|c r IH]; intros Hne Hfree; [congruence|].
  simpl in Hfree. apply andb_prop in Hfree. destruct Hfree as [Hc Hr].
  apply negb_true_iff in Hc. simpl. rewrite Hc.
  destruct r as [|c' r'].
  - reflexivity.
  - change (String c' r' ++ ")") with (String c' (r' ++ ")")) at 1.
    unfold closes. rewrite at_end_closing, andb_false_r.
    apply IH; [discriminate | exact Hr].
Qed.

Lemma dot_plus_eol_note (note : string) :
  note <> EmptyString -> free_of newline note = true ->
  dot_plus_eol note = Some EmptyString.
Proof.
  induction note as [|c r IH]; intros Hne Hfree; [congruence|].
  simpl in Hfree. apply andb_prop in Hfree. destruct Hfree as [Hc Hr].
  apply negb_true_iff in Hc. simpl. rewrite Hc.
  destruct r as [|c' r']; [reflexivity|].
  assert (Hend : at_end (String c' r') = false).
  { unfold at_end. simpl. simpl in Hr. apply andb_prop in Hr.
    destruct Hr as [Hc' _]. apply negb_true_iff in Hc'. now rewrite Hc'. }
  rewrite Hend. apply IH; [discriminate | exact Hr].
Qed.

(** A trailing group in parentheses is removed. *)
Lemma strip_annotation_trailing_paren (base note : string) :
  free_of "(" base = true -> free_of "-" base = true ->
  note <> EmptyString -> free_of newline note = true ->
  strip_annotation (base ++ "(" ++ note ++ ")") = base.
Proof.
  intros Hp Hd Hne Hnl. induction base as [|c r IH].
  - simpl. now rewrite (dot_plus_paren_eol_note note Hne Hnl).
  - simpl in Hp, Hd. apply andb_prop in Hp, Hd.
    destruct Hp as [Hcp Hp], Hd as [Hcd Hd].
    apply negb_true_iff in Hcp, Hcd.
    specialize (IH Hp Hd). simpl in IH. simpl.
    rewrite Hcp, Hcd. now rewrite IH.
Qed.

(** A trailing suffix after a hyphen is removed. *)
Lemma strip_annotation_trailing_dash (base note : string) :
  free_of "(" base = true -> free_of "-" base = true ->
  note <> EmptyString -> free_of newline note = true ->
  strip_annotation (base ++ "-" ++ note) = base.
Proof.
  intros Hp Hd Hne Hnl. induction base as [|c r IH].
  - simpl. now rewrite (dot_plus_eol_note note Hne Hnl).
  - simpl in Hp, Hd. apply andb_prop in Hp, Hd.
    destruct Hp as [Hcp Hp], Hd as [Hcd Hd].
    apply negb_true_iff in Hcp, Hcd.
    specialize (IH Hp Hd). simpl in IH. simpl.
    rewrite Hcp, Hcd. now rewrite IH.
Qed.

(** On a title that ends in a group in parentheses, the second similarity
    is the one of the title before the group. *)
Lemma best_confidence_trailing_paren (fm : string -> string -> Q)
    (base note query : string) :
  free_of "(" base = true -> free_of "-" base = true ->
  note <> EmptyString -> free_of newline note = true ->
  best_confidence fm (base ++ "(" ++ note ++ ")") query
  = Qmax (fm (lower (base ++ "(" ++ note ++ ")")) query)
         (fm (strip (lower base)) query).
Proof.
  intros Hp Hd Hne Hnl. unfold best_confidence.
  rewrite !lower_app.
  change (lower "(") with "(". change (lower ")") with ")".
  rewrite strip_annotation_trailing_paren; try reflexivity.
  - now rewrite free_of_lower by auto.
  - now rewrite free_of_lower by auto.
  - destruct note; [congruence | discriminate].
  - now rewrite free_of_lower by auto.
Qed.

(** The two similarities that are compared, as the function computes them:
    both on the title in lower case. *)
Lemma best_confidence_unfold (fm : string -> string -> Q)
    (title query : string) :
  best_confidence fm title query
  = Qmax (fm (lower title) query)
         (fm (strip (strip_annotation (lower title))) query).
Proof. reflexivity. Qed.

Lemma best_confidence_ge_lowered (fm : string -> string -> Q)
    (title query : string) :
  fm (lower title) query <= best_confidence fm title query.
Proof. rewrite best_confidence_unfold. apply Q.le_max_l. Qed.

Lemma demo_fuzzy_case_blind (a b : string) :
  demo_fuzzy (lower a) b == demo_fuzzy a b.
Proof. unfold demo_fuzzy. rewrite lower_idem. reflexivity. Qed.

Example best_confidence_remastered :
  demo_fuzzy "Imagine (Remastered 2010)" "imagine" == 0
  /\ best_confidence demo_fuzzy "Imagine (Remastered 2010)" "imagine" == 1.
Proof. split; reflexivity. Qed.

(** With a similarity that tells the case, the title is still compared in
    lower case only. *)
Example best_confidence_case :
  exact_fuzzy "Imagine" "Imagine" == 1
  /\ best_confidence exact_fuzzy "Imagine" "Imagine" == 0.
Proof. split; reflexivity. Qed.

(* ===================================================================== *)
(** ** Match levels *)

Lemma played_type_truthy (d : list (string * pyval)) (l : list string) :
  in_strs (entries_get d "type") l = true -> truthy (PDict d) = true.
Proof.
  destruct d; simpl; [|reflexivity].
  unfold in_strs. induction l; simpl; [discriminate | exact IHl].
Qed.

Lemma played_type_listed (ty : pyval) :
  in_strs ty ["track"; "album"; "artist"; "playlist"; "show"; "saved_tracks"]
  = true ->
  in_strs ty ["saved_tracks"; "album"; "artist"; "track"; "playlist"; "show"]
  = true.
Proof.
  unfold in_strs. simpl. rewrite !orb_false_r, !orb_true_iff.
  intuition.
Qed.

(** C8. For a candidate of type track, album, artist, playlist, show or
    saved_tracks with a confidence [q]: when the phrase names the provider
    the level is EXACT and the phrase is returned as it is, whatever [q];
    otherwise the level is TITLE when [q > 0.9], GENERIC when [q < 0.5] and
    TITLE in between, and the phrase is returned with [" on youtube"]
    appended. *)
Theorem match_result_levels (youtube_specified : bool) (phrase : string)
    (q : Q) (d : list (string * pyval)) :
  in_strs (entries_get d "type")
    ["track"; "album"; "artist"; "playlist"; "show"; "saved_tracks"] = true ->
  (youtube_specified = true ->
     match_result youtube_specified phrase (PFloat q) (PDict d)
     = Ok (PTuple [PStr phrase; PLevel EXACT; PDict d]))
  /\ (youtube_specified = false ->
        exists level,
          match_result youtube_specified phrase (PFloat q) (PDict d)
          = Ok (PTuple [PStr (phrase ++ " on youtube"); PLevel level; PDict d])
          /\ level <> EXACT
          /\ (0.9 < q -> level = TITLE)
          /\ (q < 0.5 -> level = GENERIC)
          /\ (0.5 <= q -> q <= 0.9 -> level = TITLE)).
Proof.
  intros Hty. unfold match_result.
  rewrite (played_type_truthy _ _ Hty). simpl dict_get. cbv iota.
  rewrite (played_type_listed _ Hty).
  split; intros ->; [reflexivity|].
  unfold gt_float, lt_float.
  destruct (Qltb 0.9 q) eqn:Hhi.
  - apply Qltb_lt in Hhi. exists TITLE. repeat split; try discriminate.
    + intros Hlo. exfalso.
      apply (Qlt_irrefl q). apply Qlt_trans with (y := 0.5); [exact Hlo|].
      apply Qlt_trans with (y := 0.9); [reflexivity | exact Hhi].
  - apply Qltb_ge in Hhi. destruct (Qltb q 0.5) eqn:Hlo.
    + apply Qltb_lt in Hlo. exists GENERIC. repeat split; try discriminate.
      * intros H. exfalso. exact (Qlt_not_le _ _ H Hhi).
      * intros H _. exfalso. exact (Qlt_not_le _ _ Hlo H).
    + apply Qltb_ge in Hlo. exists TITLE. repeat split; try discriminate.
      intros H. exfalso. exact (Qlt_not_le _ _ H Hlo).
Qed.

Lemma match_result_levels_witness :
  match_result true "abba gold" (PFloat 0.2)
    (PDict [("type", PStr "album"); ("browseId", PStr "MPRE-1")])
  = Ok (PTuple [PStr "abba gold"; PLevel EXACT;
                PDict [("type", PStr "album"); ("browseId", PStr "MPRE-1")]])
  /\ exists level,
       match_result false "abba gold" (PFloat 0.7)
         (PDict [("type", PStr "album"); ("browseId", PStr "MPRE-1")])
       = Ok (PTuple [PStr "abba gold on youtube"; PLevel level;
                     PDict [("type", PStr "album");
                            ("browseId", PStr "MPRE-1")]])
       /\ level = TITLE.
Proof.
  split.
  - apply (match_result_levels true "abba gold" 0.2
             [("type", PStr "album"); ("browseId", PStr "MPRE-1")]);
      reflexivity.
  - destruct (match_result_levels false "abba gold" 0.7
                [("type", PStr "album"); ("browseId", PStr "MPRE-1")]
                eq_refl) as (_ & H).
    destruct (H eq_refl) as (level & He & _ & _ & _ & Hmid).
    exists level. split; [exact He|].
    apply Hmid; discriminate.
Defined.

(** The handler ends in [match_result], applied to what the lookups gave. *)
Lemma CPS_match_query_phrase_ends (env : Env) (cp sq gq : resolver)
    (phrase : string) (q : Q) (d : pyval) (t t' : list call) :
  cp (sub_on_youtube env phrase)
     (if contains "youtube" phrase then 0.1 else 0.0) t
  = (Ok (PTuple [PFloat q; d]), t') ->
  truthy d = true ->
  CPS_match_query_phrase_with env cp sq gq phrase t
  = (match_result (contains "youtube" phrase) (sub_on_youtube env phrase)
       (PFloat q) d, t').
Proof.
  intros Hcp Hd. unfold CPS_match_query_phrase_with, bind.
  rewrite Hcp. simpl. rewrite Hd. simpl.
  destruct (match_result _ _ _ _); reflexivity.
Qed.

(* ===================================================================== *)
(** ** The generic fallback *)

Lemma falsy_float_not_above (c x : Q) :
  0 <= x -> Qeq_bool c 0 = true -> Qltb x c = false.
Proof.
  intros Hx Hc. apply Qeq_bool_eq in Hc. apply Qltb_ge.
  apply Qle_trans with (y := 0); [|exact Hx].
  rewrite Hc. apply Qle_refl.
Qed.

(** One block of the fallback on a pair with a float confidence. *)
Lemma consider_float (c : Q) (d : pyval) (results : list pyval)
    (t : list call) :
  consider (PTuple [PFloat c; d]) results t
  = (Ok (if Qltb DIRECT_RESPONSE_CONFIDENCE c
         then inl (PTuple [PFloat c; d])
         else if Qltb MATCH_CONFIDENCE c
              then inr (results ++ [PTuple [PFloat c; d]])%list
              else inr results), t).
Proof.
  unfold consider, bind, lift, and_gt.
  cbn -[Qltb Qeq_bool DIRECT_RESPONSE_CONFIDENCE MATCH_CONFIDENCE].
  destruct (Qeq_bool c 0) eqn:Hz;
    cbn -[Qltb Qeq_bool DIRECT_RESPONSE_CONFIDENCE MATCH_CONFIDENCE].
  - rewrite (falsy_float_not_above c DIRECT_RESPONSE_CONFIDENCE);
      [|discriminate|exact Hz].
    rewrite (falsy_float_not_above c MATCH_CONFIDENCE);
      [|discriminate|exact Hz].
    reflexivity.
  - destruct (Qltb DIRECT_RESPONSE_CONFIDENCE c);
      cbn -[Qltb Qeq_bool DIRECT_RESPONSE_CONFIDENCE MATCH_CONFIDENCE];
      [reflexivity|].
    destruct (Qltb MATCH_CONFIDENCE c); reflexivity.
Qed.

(** One block of the fallback on the sentinel. *)
Lemma consider_NOTHING_FOUND (results : list pyval) (t : list call) :
  consider NOTHING_FOUND results t = (Ok (inr results), t).
Proof. reflexivity. Qed.

(** One block of the fallback on the bare [None]. *)
Lemma consider_None (results : list pyval) (t : list call) :
  consider PNone results t = (Raise TypeError, t).
Proof. reflexivity. Qed.

(** With resolvers that answer pairs, the fallback is the ordered,
    short-circuiting chain that the specification describes. *)
Lemma generic_query_with_route (c1 c2 c3 c4 : Q) (d1 d2 d3 d4 : pyval)
    (phrase : string) (bonus : Q) (t : list call) :
  generic_query_with (answering "artists" c1 d1) (answering "songs" c2 d2)
    (answering "albums" c3 d3)
    (fun p => answering "playlists" c4 d4 p 0.0) phrase bonus t
  = route phrase
      [("artists", c1, d1); ("songs", c2, d2); ("albums", c3, d3);
       ("playlists", c4, d4)] [] t.
Proof.
  unfold generic_query_with, bind, answering. simpl route.
  rewrite consider_float.
  destruct (Qltb DIRECT_RESPONSE_CONFIDENCE c1); [reflexivity|].
  destruct (Qltb MATCH_CONFIDENCE c1);
    rewrite consider_float;
    (destruct (Qltb DIRECT_RESPONSE_CONFIDENCE c2); [reflexivity|]);
    destruct (Qltb MATCH_CONFIDENCE c2);
    rewrite consider_float;
    (destruct (Qltb DIRECT_RESPONSE_CONFIDENCE c3); [reflexivity|]);
    destruct (Qltb MATCH_CONFIDENCE c3);
    rewrite consider_float;
    (destruct (Qltb DIRECT_RESPONSE_CONFIDENCE c4); [reflexivity|]);
    destruct (Qltb MATCH_CONFIDENCE c4); reflexivity.
Qed.

(** The specification's run: artist at 0.6, track at 0.85. The track is
    returned and neither albums nor playlists are searched. *)
Example route_short_circuit :
  generic_query_with (answering "artists" 0.6 (PStr "a"))
    (answering "songs" 0.85 (PStr "s")) (answering "albums" 0.7 (PStr "l"))
    (fun p => answering "playlists" 0.7 (PStr "p") p 0.0) "x" 0.0 []
  = (Ok (PTuple [PFloat 0.85; PStr "s"]),
     [YtSearch "x" "artists"; YtSearch "x" "songs"]).
Proof. reflexivity. Qed.

(** The first accumulated answer wins over a later, better one. *)
Example route_first_accumulated :
  generic_query_with (answering "artists" 0.6 (PStr "a"))
    (answering "songs" 0.2 (PStr "s")) (answering "albums" 0.7 (PStr "l"))
    (fun p => answering "playlists" 0.75 (PStr "p") p 0.0) "x" 0.0 []
  = (Ok (PTuple [PFloat 0.6; PStr "a"]),
     [YtSearch "x" "artists"; YtSearch "x" "songs"; YtSearch "x" "albums";
      YtSearch "x" "playlists"]).
Proof. reflexivity. Qed.

(** With resolvers that answer pairs none of which is above 0.5, the
    fallback ends in [best_result []]. *)
Lemma generic_query_with_empty (c1 c2 c3 c4 : Q) (d1 d2 d3 d4 : pyval)
    (phrase : string) (bonus : Q) (t : list call) :
  c1 <= 0.5 -> c2 <= 0.5 -> c3 <= 0.5 -> c4 <= 0.5 ->
  fst (generic_query_with (answering "artists" c1 d1)
         (answering "songs" c2 d2) (answering "albums" c3 d3)
         (fun p => answering "playlists" c4 d4 p 0.0) phrase bonus t)
  = Raise IndexError.
Proof.
  intros H1 H2 H3 H4. rewrite generic_query_with_route. simpl route.
  assert (Hd : forall c, c <= 0.5 ->
                 Qltb DIRECT_RESPONSE_CONFIDENCE c = false).
  { intros c Hc. apply Qltb_ge.
    apply Qle_trans with (y := 0.5); [exact Hc | discriminate]. }
  assert (Hm : forall c, c <= 0.5 -> Qltb MATCH_CONFIDENCE c = false).
  { intros c Hc. apply Qltb_ge. exact Hc. }
  rewrite !Hd, !Hm by assumption. reflexivity.
Qed.

(** The same with resolvers that all answer the sentinel. *)
Lemma generic_query_with_nothing_found (phrase : string) (bonus : Q)
    (t : list call) :
  generic_query_with nothing_found_resolver nothing_found_resolver
    nothing_found_resolver (fun p => nothing_found_resolver p 0.0)
    phrase bonus t
  = (Raise IndexError, t).
Proof. reflexivity. Qed.

Lemma bind_ok {A B} (m : M A) (f : A -> M B) (t t' : list call) (a : A) :
  m t = (Ok a, t') -> bind m f t = f a t'.
Proof. intros H. unfold bind. now rewrite H. Qed.

Lemma bind_raise {A B} (m : M A) (f : A -> M B) (t t' : list call)
    (e : exn) :
  m t = (Raise e, t') -> bind m f t = (Raise e, t').
Proof. intros H. unfold bind. now rewrite H. Qed.

(** The track block of the fallback never hands over to what follows it:
    the song resolver raises, or its [None] cannot be unpacked. *)
Lemma song_block_raises (env : Env) (phrase : string) (bonus : Q)
    (results : list pyval) (k : pyval + list pyval -> M pyval)
    (t : list call) :
  (exists song_search,
      bind (query_song env phrase bonus)
        (fun r => bind (consider r results) k) t
      = (Raise TypeError, (t ++ [YtSearch song_search "songs"])%list))
  \/ bind (query_song env phrase bonus)
        (fun r => bind (consider r results) k) t
     = (Raise ValueError, t).
Proof.
  destruct (by_split_cases env phrase) as [(s & found & H) | H].
  - left. exists s.
    rewrite (bind_ok _ _ _ _ _ (query_song_run env _ _ _ bonus t H)).
    apply bind_raise. apply consider_None.
  - right. apply bind_raise. apply query_song_raise. exact H.
Qed.

(** The three ways the fallback of the skill can end. *)
Lemma generic_query_cases (env : Env) (phrase : string) (bonus : Q)
    (t : list call) :
  let t1 := (t ++ [YtSearch phrase "artists"])%list in
  (exists q d,
      generic_query env phrase bonus t = (Ok (PTuple [PFloat q; d]), t1)
      /\ 0.8 < q
      /\ fst (query_artist env phrase bonus t) = Ok (PTuple [PFloat q; d]))
  \/ (exists song_search,
        generic_query env phrase bonus t
        = (Raise TypeError, (t1 ++ [YtSearch song_search "songs"])%list))
  \/ generic_query env phrase bonus t = (Raise ValueError, t1).
Proof.
  intros t1. unfold generic_query, generic_query_with.
  rewrite (bind_ok _ _ _ _ _ (query_artist_run env phrase bonus t)).
  fold t1. rewrite query_artist_run. fold t1. cbn [fst].
  destruct (yt_search env phrase "artists") as [|d0 rest].
  - rewrite (bind_ok _ _ _ _ _ (consider_NOTHING_FOUND [] t1)).
    right. apply song_block_raises.
  - rewrite (bind_ok _ _ _ _ _ (consider_float _ _ [] t1)).
    destruct (Qltb DIRECT_RESPONSE_CONFIDENCE _) eqn:Hd.
    + left. eexists. eexists. split; [reflexivity|]. split; [|reflexivity].
      apply Qltb_lt in Hd. exact Hd.
    + right. destruct (Qltb MATCH_CONFIDENCE _); apply song_block_raises.
Qed.

(** C6. What the fallback of the skill does, for every phrase, bonus and
    catalog: it searches the artists; an artist result above 0.8 is
    returned at once and nothing more is searched; otherwise the song
    resolver is run and the fallback raises, [ValueError] out of the song
    resolver or [TypeError] on unpacking the [None] it returns. Albums
    and playlists are never reached, and no accumulated result is ever
    returned. *)
Theorem generic_query_outcome (env : Env) (phrase : string) (bonus : Q)
    (t : list call) :
  let t1 := (t ++ [YtSearch phrase "artists"])%list in
  (exists q d,
      generic_query env phrase bonus t = (Ok (PTuple [PFloat q; d]), t1)
      /\ 0.8 < q
      /\ fst (query_artist env phrase bonus t) = Ok (PTuple [PFloat q; d]))
  \/ (exists song_search,
        generic_query env phrase bonus t
        = (Raise TypeError, (t1 ++ [YtSearch song_search "songs"])%list))
  \/ generic_query env phrase bonus t = (Raise ValueError, t1).
Proof. exact (generic_query_cases env phrase bonus t). Qed.

(** The artist at 0.6: the specification has the fallback go on to the
    albums and return the artist in the end; the skill raises at the
    track. *)
Example generic_query_abba :
  fst (query_artist demo_env "abba gold" 0.0 [])
  = Ok (PTuple [PFloat (Qmin (0.5 + (0.0 + 0.1)) 1.0);
                PDict [("browseId", PStr "UC-abba"); ("name", PNone);
                       ("type", PStr "artist")]])
  /\ Qmin (0.5 + (0.0 + 0.1)) 1.0 == 0.6
  /\ generic_query demo_env "abba gold" 0.0 []
     = (Raise TypeError,
        [YtSearch "abba gold" "artists"; YtSearch "abba gold" "songs"]).
Proof. repeat split. Qed.

(** C1. When the artist resolver gives nothing above 0.5 (the sentinel,
    or a confidence at or below 0.5), so that nothing is accumulated, the
    fallback of the skill raises [TypeError] or [ValueError] at the track
    block: it does not return the sentinel. *)
Theorem generic_query_nothing_found_raises (env : Env) (phrase : string)
    (bonus : Q) (t : list call) :
  confidence_at_most 0.5 (fst (query_artist env phrase bonus t)) ->
  (fst (generic_query env phrase bonus t) = Raise TypeError
   \/ fst (generic_query env phrase bonus t) = Raise ValueError)
  /\ fst (generic_query env phrase bonus t) <> Ok NOTHING_FOUND.
Proof.
  intros Hweak.
  destruct (generic_query_cases env phrase bonus t)
    as [(q & d & _ & Hq & Ha) | [(s & H) | H]].
  - exfalso. rewrite Ha in Hweak. simpl in Hweak.
    apply (Qlt_irrefl q). apply Qle_lt_trans with (y := 0.5); [exact Hweak|].
    apply Qlt_trans with (y := 0.8); [reflexivity | exact Hq].
  - rewrite H. simpl. split; [left; reflexivity | discriminate].
  - rewrite H. simpl. split; [right; reflexivity | discriminate].
Qed.

Lemma generic_query_nothing_found_raises_witness :
  confidence_at_most 0.5 (fst (query_artist demo_env "xyzzy" 0.0 []))
  /\ fst (generic_query demo_env "xyzzy" 0.0 []) <> Ok NOTHING_FOUND.
Proof.
  assert (H : confidence_at_most 0.5
                (fst (query_artist demo_env "xyzzy" 0.0 []))).
  { simpl. exact I. }
  split; [exact H|].
  exact (proj2 (generic_query_nothing_found_raises demo_env "xyzzy" 0.0 [] H)).
Defined.

Example generic_query_xyzzy :
  demo_search "xyzzy" "artists" = []
  /\ demo_search "xyzzy" "songs" = []
  /\ demo_search "xyzzy" "albums" = []
  /\ generic_query demo_env "xyzzy" 0.0 []
     = (Raise TypeError, [YtSearch "xyzzy" "artists"; YtSearch "xyzzy" "songs"]).
Proof. repeat split. Qed.

(* ===================================================================== *)
(** ** The query handler *)

Lemma continue_playback_other (phrase : string) (bonus : Q) (t : list call) :
  String.eqb (strip phrase) "youtube" = false ->
  continue_playback phrase bonus t = (Ok NOTHING_FOUND, t).
Proof. intros H. unfold continue_playback. now rewrite H. Qed.

Lemma specific_query_unmatched (env : Env) (phrase : string) (bonus : Q)
    (t : list call) :
  re_match env "album" phrase = None ->
  re_match env "artist" phrase = None ->
  re_match env "song" phrase = None ->
  specific_query env phrase bonus t = (Ok NOTHING_FOUND, t).
Proof.
  intros Ha Hr Hs. unfold specific_query, specific_query_with.
  now rewrite Ha, Hr, Hs.
Qed.

(** A phrase that the track pattern matches: the specific query hands on
    what the song resolver gives. *)
Lemma specific_query_song (env : Env) (phrase song : string)
    (gd : list (string * string)) (bonus : Q) (t : list call) :
  re_match env "album" phrase = None ->
  re_match env "artist" phrase = None ->
  re_match env "song" phrase = Some gd ->
  group gd "track" = Ok song ->
  specific_query env phrase bonus t = query_song env song bonus t.
Proof.
  intros Ha Hr Hs Hg. unfold specific_query, specific_query_with.
  rewrite Ha, Hr, Hs.
  unfold bind at 1. unfold lift. rewrite Hg. reflexivity.
Qed.

(** The handler when the continuation check and the specific query found
    nothing: it ends as the fallback does. *)
Lemma CPS_falls_back (env : Env) (phrase : string) (t : list call) :
  let p := sub_on_youtube env phrase in
  let bonus := if contains "youtube" phrase then 0.1 else 0.0 in
  String.eqb (strip p) "youtube" = false ->
  specific_query env p bonus t = (Ok NOTHING_FOUND, t) ->
  CPS_match_query_phrase env phrase t
  = bind (generic_query env p bonus)
      (fun r => bind (lift (unpack2 r))
         (fun cd => lift (match_result (contains "youtube" phrase) p
                            (fst cd) (snd cd)))) t.
Proof.
  intros p bonus Hc Hs.
  unfold CPS_match_query_phrase, CPS_match_query_phrase_with.
  fold p. fold bonus.
  rewrite (bind_ok _ _ _ _ _ (continue_playback_other p bonus t Hc)).
  unfold NOTHING_FOUND at 1.
  rewrite (bind_ok (lift (unpack2 (PTuple [PNone; PFloat 0.0]))) _ t t
             (PNone, PFloat 0.0) eq_refl).
  change (negb (truthy (PFloat 0.0))) with true. cbv iota.
  unfold bind at 1. unfold bind at 1. rewrite Hs.
  unfold NOTHING_FOUND at 1.
  rewrite (bind_ok (lift (unpack2 (PTuple [PNone; PFloat 0.0]))) _ t t
             (PNone, PFloat 0.0) eq_refl).
  change (negb (truthy (PFloat 0.0))) with true. cbv iota.
  unfold bind.
  destruct (generic_query env p bonus t) as [[r|e] t']; [|reflexivity].
  unfold lift. destruct (unpack2 r) as [[c d]|e]; reflexivity.
Qed.

(** C2. A phrase that is not the continuation, that no pattern matches
    and for which the artist resolver gives nothing above 0.8 makes the
    handler raise [TypeError] or [ValueError]; and on a phrase that the
    track pattern matches, the specific query returns the bare [None],
    neither a pair nor the sentinel, or raises [ValueError]. No search
    fails in either case. *)
Theorem router_raises (env : Env) (phrase : string) (t : list call) :
  let p := sub_on_youtube env phrase in
  let bonus := if contains "youtube" phrase then 0.1 else 0.0 in
  (String.eqb (strip p) "youtube" = false ->
   re_match env "album" p = None ->
   re_match env "artist" p = None ->
   re_match env "song" p = None ->
   confidence_at_most 0.8 (fst (query_artist env p bonus t)) ->
   fst (CPS_match_query_phrase env phrase t) = Raise TypeError
   \/ fst (CPS_match_query_phrase env phrase t) = Raise ValueError)
  /\ (forall gd song,
        re_match env "album" p = None ->
        re_match env "artist" p = None ->
        re_match env "song" p = Some gd ->
        group gd "track" = Ok song ->
        (fst (specific_query env p bonus t) = Ok PNone
         /\ is_pair PNone = false /\ PNone <> NOTHING_FOUND)
        \/ fst (specific_query env p bonus t) = Raise ValueError).
Proof.
  intros p bonus. split.
  - intros Hc Ha Hr Hs Hweak.
    rewrite (CPS_falls_back env phrase t Hc
               (specific_query_unmatched env p bonus t Ha Hr Hs)).
    fold p. fold bonus.
    destruct (generic_query_cases env p bonus t)
      as [(q & d & _ & Hq & Hart) | [(s & H) | H]].
    + exfalso. rewrite Hart in Hweak. simpl in Hweak.
      exact (Qlt_not_le _ _ Hq Hweak).
    + left. rewrite (bind_raise _ _ _ _ _ H). reflexivity.
    + right. rewrite (bind_raise _ _ _ _ _ H). reflexivity.
  - intros gd song Ha Hr Hs Hg.
    rewrite (specific_query_song env p song gd bonus t Ha Hr Hs Hg).
    destruct (by_split_cases env song) as [(q & found & H) | H].
    + left. rewrite (query_song_run env _ _ _ bonus t H).
      repeat split; discriminate.
    + right. rewrite (query_song_raise env _ bonus t H). reflexivity.
Qed.

Lemma router_raises_witness :
  fst (CPS_match_query_phrase demo_env "xyzzy" []) = Raise TypeError
  \/ fst (CPS_match_query_phrase demo_env "xyzzy" []) = Raise ValueError.
Proof.
  apply (proj1 (router_raises demo_env "xyzzy" []));
    [reflexivity | reflexivity | reflexivity | reflexivity | exact I].
Defined.

Example CPS_xyzzy :
  CPS_match_query_phrase demo_env "xyzzy" []
  = (Raise TypeError, [YtSearch "xyzzy" "artists"; YtSearch "xyzzy" "songs"]).
Proof. reflexivity. Qed.

(** A phrase that the track pattern matches, with a catalog that has the
    song: the handler cannot unpack what the specific query returns. *)
Example CPS_the_song :
  demo_search "bohemian rhapsody" "songs" <> []
  /\ specific_query demo_env "the song bohemian rhapsody" 0.0 []
     = (Ok PNone, [YtSearch "bohemian rhapsody" "songs"])
  /\ CPS_match_query_phrase demo_env "the song bohemian rhapsody" []
     = (Raise TypeError, [YtSearch "bohemian rhapsody" "songs"]).
Proof. repeat split. discriminate. Qed.

(** The handler's last branch. *)
Lemma match_result_no_data (youtube_specified : bool) (phrase : string)
    (confidence data : pyval) :
  truthy data = false ->
  match_result youtube_specified phrase confidence data = Ok PNone.
Proof. intros H. unfold match_result. now rewrite H. Qed.

(** The last branch of the handler, with the three methods it reaches
    through [self] taken as given: were each of them to return a pair
    whose data is not truthy, the handler would return [None]. *)
Lemma CPS_with_returns_None (env : Env) (cp sq gq : resolver)
    (phrase : string) (t t1 t2 t3 : list call)
    (c1 d1 c2 d2 c3 d3 : pyval) :
  let p := sub_on_youtube env phrase in
  let bonus := if contains "youtube" phrase then 0.1 else 0.0 in
  cp p bonus t = (Ok (PTuple [c1; d1]), t1) -> truthy d1 = false ->
  sq p bonus t1 = (Ok (PTuple [c2; d2]), t2) -> truthy d2 = false ->
  gq p bonus t2 = (Ok (PTuple [c3; d3]), t3) -> truthy d3 = false ->
  CPS_match_query_phrase_with env cp sq gq phrase t = (Ok PNone, t3)
  /\ PNone <> NOTHING_FOUND
  /\ (forall a b c, PNone <> PTuple [a; b; c]).
Proof.
  intros p bonus H1 F1 H2 F2 H3 F3. repeat split; try discriminate.
  unfold CPS_match_query_phrase_with. fold p. fold bonus.
  rewrite (bind_ok _ _ _ _ _ H1).
  rewrite (bind_ok (lift (unpack2 (PTuple [c1; d1]))) _ t1 t1 (c1, d1) eq_refl).
  rewrite F1. cbn [negb].
  unfold bind at 1. unfold bind at 1. rewrite H2.
  rewrite (bind_ok (lift (unpack2 (PTuple [c2; d2]))) _ t2 t2 (c2, d2) eq_refl).
  rewrite F2. cbn [negb].
  unfold bind at 1. rewrite H3.
  cbn [unpack2 lift ret].
  rewrite (match_result_no_data _ _ _ _ F3). reflexivity.
Qed.

(** The fallback of the skill itself never returns data that is not
    truthy: when it returns, it returns an artist candidate. *)
Lemma generic_query_data_truthy (env : Env) (phrase : string) (bonus : Q)
    (t t' : list call) (c d : pyval) :
  generic_query env phrase bonus t = (Ok (PTuple [c; d]), t') ->
  truthy d = true.
Proof.
  intros H.
  destruct (generic_query_cases env phrase bonus t)
    as [(q & d' & Hg & _ & Ha) | [(s & Hg) | Hg]];
    rewrite Hg in H; try discriminate.
  injection H as _ Hd _. subst d'.
  rewrite query_artist_run in Ha. simpl in Ha.
  destruct (yt_search env phrase "artists"); [discriminate|].
  injection Ha as _ Hd. subst d. reflexivity.
Qed.

(** With truthy data the handler's last part returns a triple or raises. *)
Lemma match_result_data (youtube_specified : bool) (phrase : string)
    (confidence data : pyval) :
  truthy data = true ->
  match_result youtube_specified phrase confidence data <> Ok PNone.
Proof.
  intros H. unfold match_result. rewrite H.
  destruct (dict_get data "type") as [ty|e]; [|discriminate].
  destruct (in_strs ty _).
  - destruct youtube_specified; [discriminate|].
    destruct (gt_float confidence 0.9) as [[|]|]; try discriminate.
    destruct (lt_float confidence 0.5) as [[|]|]; discriminate.
  - destruct (eq_str ty "continue"); [|discriminate].
    destruct youtube_specified; discriminate.
Qed.

(** The handler of the skill itself never returns [None]: its last branch
    is not reached, since the fallback returns truthy data or raises. *)
Lemma CPS_never_None (env : Env) (phrase : string) (t : list call) :
  fst (CPS_match_query_phrase env phrase t) <> Ok PNone.
Proof.
  unfold CPS_match_query_phrase, CPS_match_query_phrase_with.
  set (p := sub_on_youtube env phrase).
  set (bonus := if contains "youtube" phrase then 0.1 else 0.0).
  set (ys := contains "youtube" phrase).
  unfold bind at 1. unfold continue_playback.
  destruct (String.eqb (strip p) "youtube").
  - cbn -[match_result]. unfold lift.
    pose proof (match_result_data ys p (PFloat 1.0)
      (PDict [("data", PNone); ("name", PNone); ("type", PStr "continue")])
      eq_refl) as Hm.
    destruct (match_result _ _ _ _); [exact Hm | discriminate].
  - unfold ret at 1, NOTHING_FOUND at 1.
    rewrite (bind_ok (lift (unpack2 (PTuple [PNone; PFloat 0.0]))) _ t t
             (PNone, PFloat 0.0) eq_refl).
    change (negb (truthy (PFloat 0.0))) with true. cbv iota.
    unfold bind at 1. unfold bind at 1.
    destruct (specific_query env p bonus t) as [[r2|e] t2]; [|discriminate].
    unfold bind at 1. unfold lift at 1.
    destruct (unpack2 r2) as [[c2 d2]|e]; [|discriminate].
    unfold ret at 1.
    destruct (truthy d2) eqn:Hd2; cbn [negb].
    + unfold ret at 1. unfold lift.
      pose proof (match_result_data ys p c2 d2 Hd2) as Hm.
      destruct (match_result _ _ _ _); [exact Hm | discriminate].
    + unfold bind at 1.
      destruct (generic_query env p bonus t2) as [[r3|e] t3] eqn:Hgq;
        [|discriminate].
      destruct (generic_query_cases env p bonus t2)
        as [(q & d & Hq & _) | [(s & Hq) | Hq]];
        rewrite Hgq in Hq; try discriminate.
      injection Hq as -> _.
      pose proof (generic_query_data_truthy env p bonus t2 _ _ _ Hgq) as Hd.
      cbn [unpack2 lift ret].
      pose proof (match_result_data ys p (PFloat q) d Hd) as Hm.
      destruct (match_result _ _ _ _); [exact Hm | discriminate].
Qed.

(* ===================================================================== *)
(** ** Confidence values *)

Lemma Qmin_one_mono (x y : Q) : x <= y -> Qmin x 1.0 <= Qmin y 1.0.
Proof. intros H. apply Q.min_le_compat_r. exact H. Qed.

Lemma Qmin_one_le (x : Q) : Qmin x 1.0 <= 1.
Proof.
  apply Qle_trans with (y := 1.0); [apply Q.le_min_r | discriminate].
Qed.

Lemma Qmin_one_nonneg (x : Q) : 0 <= x -> 0 <= Qmin x 1.0.
Proof. intros H. apply Q.min_glb; [exact H | discriminate]. Qed.

Section ConfidenceRange.

Variable env : Env.
Hypothesis fuzzy_nonneg : forall a b, 0 <= fuzzy_match env a b.

Lemma query_artist_in_unit (text : string) (bonus : Q) (t : list call) :
  0 <= bonus -> confidence_in_unit (fst (query_artist env text bonus t)).
Proof.
  intros Hb. rewrite query_artist_run. simpl.
  destruct (yt_search env text "artists") as [|d0 rest]; simpl; [exact I|].
  split; [|apply Qmin_one_le].
  apply Qmin_one_nonneg.
  apply Qle_trans with (y := 0 + (0 + 0.1)); [discriminate|].
  apply Qplus_le_compat; [apply fuzzy_nonneg|].
  apply Qplus_le_compat; [exact Hb | apply Qle_refl].
Qed.

Lemma query_album_in_unit (text : string) (bonus : Q) (t : list call) :
  confidence_in_unit (fst (query_album env text bonus t)).
Proof.
  destruct (by_split_cases env text) as [(q & found & H) | H].
  - rewrite (query_album_found env _ _ _ _ _ H). simpl.
    destruct (yt_search env q "albums"); simpl; [exact I|].
    split; discriminate.
  - unfold query_album, bind, lift. rewrite H. exact I.
Qed.

Lemma query_song_in_unit (text : string) (bonus : Q) (t : list call) :
  confidence_in_unit (fst (query_song env text bonus t)).
Proof.
  destruct (by_split_cases env text) as [(q & found & H) | H].
  - rewrite (query_song_run env _ _ _ _ _ H). exact I.
  - rewrite (query_song_raise env _ _ _ H). exact I.
Qed.

Lemma continue_playback_in_unit (text : string) (bonus : Q) (t : list call) :
  confidence_in_unit (fst (continue_playback text bonus t)).
Proof.
  unfold continue_playback.
  destruct (String.eqb (strip text) "youtube"); simpl; [|exact I].
  split; discriminate.
Qed.

Lemma specific_query_in_unit (phrase : string) (bonus : Q) (t : list call) :
  0 <= bonus -> confidence_in_unit (fst (specific_query env phrase bonus t)).
Proof.
  intros Hb. unfold specific_query, specific_query_with.
  destruct (re_match env "album" phrase) as [gd|].
  { unfold bind at 1, lift. destruct (group gd "album"); [|exact I].
    apply query_album_in_unit. }
  destruct (re_match env "artist" phrase) as [gd|].
  { unfold bind at 1, lift. destruct (group gd "artist"); [|exact I].
    apply query_artist_in_unit. exact Hb. }
  destruct (re_match env "song" phrase) as [gd|].
  { unfold bind at 1, lift. destruct (group gd "track"); [|exact I].
    apply query_song_in_unit. }
  exact I.
Qed.

Lemma generic_query_in_unit (phrase : string) (bonus : Q) (t : list call) :
  0 <= bonus -> confidence_in_unit (fst (generic_query env phrase bonus t)).
Proof.
  intros Hb.
  destruct (generic_query_cases env phrase bonus t)
    as [(q & d & Hg & _ & Ha) | [(s & Hg) | Hg]]; rewrite Hg; try exact I.
  cbn [fst]. rewrite <- Ha. apply query_artist_in_unit. exact Hb.
Qed.

End ConfidenceRange.

(** C9. The artist resolver's confidence is
    [min (similarity + bonus, 1.0)], the bonus being the one passed plus
    the 0.1 of the category: it never exceeds 1.0, for any text and bonus,
    and does not decrease when the bonus grows. With a similarity that is
    never negative and a bonus that is not negative, as the bonuses of the
    handler are, the confidence of every resolver and of the two queries
    lies in [0, 1], where there is one. *)
Theorem confidence_clamped (env : Env) (text : string) (t : list call) :
  (forall bonus,
     confidence_at_most 1 (fst (query_artist env text bonus t)))
  /\ (forall bonus d0 rest,
        yt_search env text "artists" = d0 :: rest ->
        exists data,
          fst (query_artist env text bonus t)
          = Ok (PTuple [PFloat (Qmin (fuzzy_match env d0.(r_artist)
                                        (lower text) + (bonus + 0.1)) 1.0);
                        data]))
  /\ (forall b1 b2 d0 rest,
        yt_search env text "artists" = d0 :: rest ->
        b1 <= b2 ->
        confidence_le (fst (query_artist env text b1 t))
                      (fst (query_artist env text b2 t)))
  /\ (forall bonus,
        (forall a b, 0 <= fuzzy_match env a b) ->
        0 <= bonus ->
        confidence_in_unit (fst (query_artist env text bonus t))
        /\ confidence_in_unit (fst (query_album env text bonus t))
        /\ confidence_in_unit (fst (query_song env text bonus t))
        /\ confidence_in_unit (fst (continue_playback text bonus t))
        /\ confidence_in_unit (fst (specific_query env text bonus t))
        /\ confidence_in_unit (fst (generic_query env text bonus t)))
  /\ (forall phrase : string,
        0 <= (if contains "youtube" phrase then 0.1 else 0.0)).
Proof.
  split; [|split; [|split; [|split]]].
  - intros bonus. rewrite query_artist_run. simpl.
    destruct (yt_search env text "artists"); simpl; [exact I|].
    apply Qmin_one_le.
  - intros bonus d0 rest H. rewrite query_artist_run, H. simpl. eauto.
  - intros b1 b2 d0 rest H Hle. rewrite !query_artist_run, H. simpl.
    apply Qmin_one_mono. apply Qplus_le_r. apply Qplus_le_l. exact Hle.
  - intros bonus Hfm Hb. repeat split.
    + apply query_artist_in_unit; assumption.
    + apply query_album_in_unit.
    + apply query_song_in_unit.
    + apply continue_playback_in_unit.
    + apply specific_query_in_unit; assumption.
    + apply generic_query_in_unit; assumption.
  - intros phrase. destruct (contains "youtube" phrase); discriminate.
Qed.

Lemma demo_fuzzy_nonneg (a b : string) : 0 <= demo_fuzzy a b.
Proof.
  unfold demo_fuzzy.
  destruct (String.eqb (lower a) (lower b)); [discriminate|].
  destruct (contains (lower a) (lower b)); discriminate.
Qed.

Lemma confidence_clamped_witness :
  confidence_at_most 1 (fst (query_artist demo_env "queen" 0.5 []))
  /\ confidence_le (fst (query_artist demo_env "abba gold" 0.0 []))
                   (fst (query_artist demo_env "abba gold" 0.1 []))
  /\ confidence_in_unit (fst (query_artist demo_env "abba gold" 0.1 [])).
Proof.
  destruct (confidence_clamped demo_env "queen" []) as (H1 & _).
  destruct (confidence_clamped demo_env "abba gold" [])
    as (_ & _ & H3 & H4 & _).
  split; [apply H1 | split].
  - apply (H3 0.0 0.1 {| r_artist := "ABBA"; r_browseId := "UC-abba" |} []).
    + reflexivity.
    + discriminate.
  - assert (Hb : 0 <= 0.1) by discriminate.
    destruct (H4 0.1 demo_fuzzy_nonneg Hb) as (Ha & _). exact Ha.
Defined.

(** The clamp at work: a full similarity and a bonus of 0.5. *)
Example query_artist_clamps :
  confidence_of
    match fst (query_artist demo_env "queen" 0.5 []) with
    | Ok r => r
    | Raise _ => PNone
    end
  = Some (Qmin (1.0 + (0.5 + 0.1)) 1.0)
  /\ Qmin (1.0 + (0.5 + 0.1)) 1.0 == 1.
Proof. split; reflexivity. Qed.

(* ===================================================================== *)
(** ** Splitting on the connector *)

Lemma append_empty_r (s : string) : s ++ "" = s.
Proof. induction s as [|c r IH]; simpl; [reflexivity | now rewrite IH]. Qed.

Lemma length_append (a b : string) :
  String.length (a ++ b) = (String.length a + String.length b)%nat.
Proof. induction a as [|x r IH]; simpl; [reflexivity | now rewrite IH]. Qed.


Lemma string_of_rev_cons (c : ascii) (cur : list ascii) (r : string) :
  string_of_list_ascii (rev (c :: cur)) ++ r
  = string_of_list_ascii (rev cur) ++ String c r.
Proof.
  simpl rev. induction (rev cur) as [|x l IH]; simpl; [reflexivity|].
  now rewrite IH.
Qed.

Lemma prefix_split (sep s : string) :
  prefix sep s = true -> exists rest, s = sep ++ rest.
Proof.
  revert s. induction sep as [|c sep' IH]; intros s H.
  - exists s. reflexivity.
  - destruct s as [|d r]; simpl in H; [discriminate|].
    destruct (ascii_dec c d) as [->|]; [|discriminate].
    destruct (IH r H) as (rest & ->). exists rest. reflexivity.
Qed.

Lemma split_from_skip (sep pre rest : string) (cur : list ascii) :
  split_from sep (pre ++ rest) (String.length pre) cur
  = split_from sep rest 0 cur.
Proof.
  induction pre as [|c p IH]; simpl; [reflexivity | exact IH].
Qed.

Lemma split_from_nonempty (sep s : string) (skip : nat) (cur : list ascii) :
  split_from sep s skip cur <> [].
Proof.
  revert skip cur. induction s as [|c r IH]; intros skip cur;
    cbn [split_from].
  - discriminate.
  - destruct skip; [|apply IH].
    destruct (prefix sep (String c r)); [discriminate | apply IH].
Qed.

Lemma concat_cons (sep x : string) (l : list string) :
  l <> [] -> String.concat sep (x :: l) = x ++ sep ++ String.concat sep l.
Proof. destruct l; [congruence | reflexivity]. Qed.

(** Joining the pieces with the separator gives the text back. *)
Lemma split_from_join (c0 : ascii) (sep' : string) (n : nat) :
  forall (s : string) (cur : list ascii),
    (String.length s <= n)%nat ->
    String.concat (String c0 sep') (split_from (String c0 sep') s 0 cur)
    = string_of_list_ascii (rev cur) ++ s.
Proof.
  induction n as [|n IH]; intros s cur Hlen.
  - destruct s; [|simpl in Hlen; lia]. simpl. now rewrite append_empty_r.
  - destruct s as [|c r]; [simpl; now rewrite append_empty_r|].
    simpl in Hlen. cbn [split_from].
    destruct (prefix (String c0 sep') (String c r)) eqn:Hp.
    + destruct (prefix_split _ _ Hp) as (rest & Hs).
      simpl in Hs. injection Hs as -> ->.
      cbn [String.length]. rewrite Nat.sub_succ, Nat.sub_0_r.
      rewrite split_from_skip.
      rewrite concat_cons by apply split_from_nonempty.
      rewrite (IH rest []).
      * reflexivity.
      * rewrite length_append in Hlen. lia.
    + rewrite (IH r (c :: cur)) by lia. apply string_of_rev_cons.
Qed.

(** A text without the separator is one piece. *)
Lemma split_from_absent (sep : string) :
  forall (s : string) (cur : list ascii),
    contains sep s = false ->
    split_from sep s 0 cur = [string_of_list_ascii (rev cur) ++ s].
Proof.
  induction s as [|c r IH]; intros cur H.
  - simpl. now rewrite append_empty_r.
  - cbn [contains] in H. apply orb_false_elim in H. destruct H as [Hp Hc].
    cbn [split_from]. rewrite Hp. rewrite (IH _ Hc).
    now rewrite string_of_rev_cons.
Qed.

(** A text with the separator is at least two pieces. *)
Lemma split_from_present (c0 : ascii) (sep' : string) :
  forall (s : string) (cur : list ascii),
    contains (String c0 sep') s = true ->
    (2 <= List.length (split_from (String c0 sep') s 0 cur))%nat.
Proof.
  induction s as [|c r IH]; intros cur H.
  - simpl in H. discriminate.
  - cbn [contains] in H. cbn [split_from].
    destruct (prefix (String c0 sep') (String c r)) eqn:Hp.
    + pose proof (split_from_nonempty (String c0 sep') r
                    (String.length (String c0 sep') - 1) []) as Hne.
      destruct (split_from (String c0 sep') r _ []);
        [congruence | simpl; lia].
    + simpl in H. apply IH. exact H.
Qed.

Section Connector.

Variable env : Env.

(** X1. A text that does not hold the connector is searched as it is: the
    album resolver issues one album search for the text itself. *)
Theorem query_album_plain (album : string) (bonus : Q) (t : list call) :
  contains (" " ++ translate env "by" ++ " ") album = false ->
  by_split env album = Ok (album, false)
  /\ snd (query_album env album bonus t)
     = (t ++ [YtSearch album "albums"])%list.
Proof.
  intros H.
  assert (Hs : by_split env album = Ok (album, false)).
  { unfold by_split, split. cbn [append] in H |- *.
    rewrite (split_from_absent _ album [] H). reflexivity. }
  split; [exact Hs|].
  rewrite (query_album_found env _ _ _ bonus t Hs). reflexivity.
Qed.

(** X2. When the connector is found, the album text and the artist text
    that make the search string are the two sides of the connector: put
    back around it they give the text that was asked for. *)
Theorem by_split_recombines (text q : string) :
  by_split env text = Ok (q, true) ->
  exists a b,
    text = a ++ (" " ++ translate env "by" ++ " ") ++ b
    /\ q = "*" ++ a ++ "* artist:" ++ b.
Proof.
  unfold by_split, split. cbn [append].
  pose proof (split_from_join " " (translate env "by" ++ " ")
                (String.length text) text [] (le_n _)) as Hj.
  destruct (split_from _ text 0 []) as [|a [|b [|c l]]]; simpl;
    try discriminate.
  intros H. injection H as <-. exists a, b. split; [|reflexivity].
  simpl in Hj. symmetry. exact Hj.
Qed.

(** X3. Whether the connector clause is taken is whether the text holds
    the connector: whenever the split returns, its flag is
    [by_word in text]. *)
Theorem by_split_found_iff (text q : string) (found : bool) :
  by_split env text = Ok (q, found) ->
  found = contains (" " ++ translate env "by" ++ " ") text.
Proof.
  unfold by_split, split. cbn [append].
  destruct (contains (String " " (translate env "by" ++ " ")) text) eqn:Hc.
  - pose proof (split_from_present _ _ text [] Hc) as Hlen.
    destruct (split_from _ text 0 []) as [|a [|b [|c l]]]; simpl in *;
      try lia; try discriminate.
    intros H. now injection H as _ <-.
  - rewrite (split_from_absent _ text [] Hc). simpl.
    intros H. now injection H as _ <-.
Qed.

End Connector.

Lemma query_album_plain_witness :
  snd (query_album demo_env "abba gold" 0.0 [])
  = [YtSearch "abba gold" "albums"].
Proof.
  apply (proj2 (query_album_plain demo_env "abba gold" 0.0 [] eq_refl)).
Defined.

Lemma by_split_recombines_witness :
  exists a b,
    "abbey road by the beatles" = a ++ " by " ++ b
    /\ "*abbey road* artist:the beatles" = "*" ++ a ++ "* artist:" ++ b.
Proof.
  apply (by_split_recombines demo_env "abbey road by the beatles"
           "*abbey road* artist:the beatles" eq_refl).
Defined.

Lemma by_split_found_iff_witness :
  true = contains " by " "abbey road by the beatles".
Proof.
  apply (by_split_found_iff demo_env "abbey road by the beatles"
           "*abbey road* artist:the beatles" true eq_refl).
Defined.

(* ===================================================================== *)
(** ** Titles and their annotations *)

Lemma is_space_lower (c : ascii) : is_space (lower_ascii c) = is_space c.
Proof. destruct c as [[] [] [] [] [] [] [] []]; reflexivity. Qed.

Lemma str_nonempty_lower (s : string) :
  str_nonempty (lower s) = str_nonempty s.
Proof. destruct s; reflexivity. Qed.

Lemma lstrip_lower (s : string) : lstrip (lower s) = lower (lstrip s).
Proof.
  induction s as [|c r IH]; simpl; [reflexivity|].
  rewrite is_space_lower. destruct (is_space c); [exact IH | reflexivity].
Qed.

Lemma rstrip_lower (s : string) : rstrip (lower s) = lower (rstrip s).
Proof.
  induction s as [|c r IH]; simpl; [reflexivity|].
  rewrite is_space_lower, IH, str_nonempty_lower.
  destruct (is_space c && negb (str_nonempty (rstrip r))); reflexivity.
Qed.

Lemma strip_lower (s : string) : strip (lower s) = lower (strip s).
Proof. unfold strip. now rewrite lstrip_lower, rstrip_lower. Qed.

Lemma strip_annotation_unmarked (s : string) :
  free_of "(" s = true -> free_of "-" s = true -> strip_annotation s = s.
Proof.
  induction s as [|c r IH]; intros Hp Hd; [reflexivity|].
  simpl in Hp, Hd. apply andb_prop in Hp, Hd.
  destruct Hp as [Hcp Hp], Hd as [Hcd Hd].
  apply negb_true_iff in Hcp, Hcd.
  simpl. rewrite Hcp, Hcd. now rewrite (IH Hp Hd).
Qed.

Lemma Qmax_same (x : Q) : Qmax x x = x.
Proof.
  unfold Qmax, GenericMinMax.gmax. destruct (Qcompare x x); reflexivity.
Qed.

(** X4. A title that holds neither a parenthesis nor a hyphen, and no
    blanks around it, has one similarity only: [best_confidence] is the
    similarity of the title in lower case. *)
Theorem best_confidence_unmarked (fm : string -> string -> Q)
    (title query : string) :
  free_of "(" title = true -> free_of "-" title = true ->
  strip title = title ->
  best_confidence fm title query = fm (lower title) query.
Proof.
  intros Hp Hd Hs. unfold best_confidence.
  rewrite strip_annotation_unmarked, strip_lower, Hs.
  - apply Qmax_same.
  - now rewrite free_of_lower by auto.
  - now rewrite free_of_lower by auto.
Qed.

Lemma best_confidence_unmarked_witness :
  best_confidence demo_fuzzy "Abbey Road" "abbey road"
  = demo_fuzzy (lower "Abbey Road") "abbey road".
Proof.
  apply (best_confidence_unmarked demo_fuzzy "Abbey Road" "abbey road");
    reflexivity.
Defined.

(** X5. On a title that ends in a hyphen and a suffix, the second
    similarity is the one of the title before the hyphen. *)
Theorem best_confidence_trailing_dash (fm : string -> string -> Q)
    (base note query : string) :
  free_of "(" base = true -> free_of "-" base = true ->
  note <> EmptyString -> free_of newline note = true ->
  best_confidence fm (base ++ "-" ++ note) query
  = Qmax (fm (lower (base ++ "-" ++ note)) query)
         (fm (strip (lower base)) query).
Proof.
  intros Hp Hd Hne Hnl. unfold best_confidence.
  rewrite !lower_app. change (lower "-") with "-".
  rewrite strip_annotation_trailing_dash; try reflexivity.
  - now rewrite free_of_lower by auto.
  - now rewrite free_of_lower by auto.
  - destruct note; [congruence | discriminate].
  - now rewrite free_of_lower by auto.
Qed.

Lemma best_confidence_trailing_dash_witness :
  best_confidence demo_fuzzy ("Heroes " ++ "-" ++ " 2017 Remaster") "heroes"
  = Qmax (demo_fuzzy (lower ("Heroes " ++ "-" ++ " 2017 Remaster")) "heroes")
         (demo_fuzzy (strip (lower "Heroes ")) "heroes").
Proof.
  apply (best_confidence_trailing_dash demo_fuzzy "Heroes " " 2017 Remaster"
           "heroes"); try reflexivity. discriminate.
Defined.

(** X6. The same for a trailing group in parentheses, with the blanks
    before the group stripped too. *)
Theorem best_confidence_remaster (fm : string -> string -> Q)
    (base note query : string) :
  free_of "(" base = true -> free_of "-" base = true ->
  note <> EmptyString -> free_of newline note = true ->
  best_confidence fm (base ++ "(" ++ note ++ ")") query
  = Qmax (fm (lower (base ++ "(" ++ note ++ ")")) query)
         (fm (lower (strip base)) query).
Proof.
  intros Hp Hd Hne Hnl.
  rewrite (best_confidence_trailing_paren fm base note query Hp Hd Hne Hnl).
  now rewrite strip_lower.
Qed.

Lemma best_confidence_remaster_witness :
  best_confidence demo_fuzzy ("Imagine " ++ "(" ++ "Remastered 2010" ++ ")")
    "imagine"
  = Qmax (demo_fuzzy (lower ("Imagine " ++ "(" ++ "Remastered 2010" ++ ")"))
            "imagine")
         (demo_fuzzy (lower (strip "Imagine ")) "imagine").
Proof.
  apply (best_confidence_remaster demo_fuzzy "Imagine " "Remastered 2010"
           "imagine"); try reflexivity. discriminate.
Defined.

(** X7. The case of the title does not count: the title and the title in
    lower case have the same confidence. *)
Theorem best_confidence_case_blind (fm : string -> string -> Q)
    (title query : string) :
  best_confidence fm (lower title) query = best_confidence fm title query.
Proof. unfold best_confidence. now rewrite lower_idem. Qed.

(** A hyphen inside a name cuts the name. *)
Example best_confidence_hyphenated :
  strip (strip_annotation (lower "Jay-Z")) = "jay"
  /\ best_confidence demo_fuzzy "Jay-Z" "jay" == 1.
Proof. split; reflexivity. Qed.

(* ===================================================================== *)
(** ** What the queries return and search *)

Lemma grows_by_refl (n : nat) (t : list call) : grows_by n t t.
Proof. exists []. split; [now rewrite app_nil_r | simpl; lia]. Qed.

Lemma grows_by_one (n : nat) (t : list call) (c : call) :
  grows_by (S n) t (t ++ [c]).
Proof. exists [c]. split; [reflexivity | simpl; lia]. Qed.

Lemma grows_by_trans (n m : nat) (t1 t2 t3 : list call) :
  grows_by n t1 t2 -> grows_by m t2 t3 -> grows_by (n + m) t1 t3.
Proof.
  intros (l1 & -> & H1) (l2 & -> & H2). exists (l1 ++ l2)%list.
  split; [now rewrite app_assoc | rewrite length_app; lia].
Qed.

Lemma grows_by_weaken (n m : nat) (t t' : list call) :
  (n <= m)%nat -> grows_by n t t' -> grows_by m t t'.
Proof. intros Hle (l & -> & H). exists l. split; [reflexivity | lia]. Qed.

Section QueryFacts.

Variable env : Env.

Lemma query_album_result (album : string) (bonus : Q) (t t' : list call)
    (r : pyval) :
  query_album env album bonus t = (Ok r, t') ->
  r = NOTHING_FOUND \/ exists id, r = PTuple [PFloat 0.7; album_candidate id].
Proof.
  destruct (by_split_cases env album) as [(q & found & H) | H].
  - rewrite (query_album_found env _ _ _ bonus t H).
    destruct (yt_search env q "albums") as [|r0 rest]; intros E;
      injection E as <- _; [left; reflexivity|].
    right. exists (r_browseId r0). reflexivity.
  - unfold query_album, bind, lift. rewrite H. discriminate.
Qed.

Lemma query_album_trace (album : string) (bonus : Q) (t : list call) :
  grows_by 1 t (snd (query_album env album bonus t)).
Proof.
  destruct (by_split_cases env album) as [(q & found & H) | H].
  - rewrite (query_album_found env _ _ _ bonus t H). apply grows_by_one.
  - unfold query_album, bind, lift. rewrite H. apply grows_by_refl.
Qed.

Lemma query_artist_result (artist : string) (bonus : Q) (t t' : list call)
    (r : pyval) :
  query_artist env artist bonus t = (Ok r, t') ->
  r = NOTHING_FOUND
  \/ exists q id, r = PTuple [PFloat q; artist_candidate id].
Proof.
  rewrite query_artist_run.
  destruct (yt_search env artist "artists") as [|d0 rest]; intros E;
    injection E as <- _; [left; reflexivity|].
  right. eexists. exists (r_browseId d0). reflexivity.
Qed.

Lemma query_artist_trace (artist : string) (bonus : Q) (t : list call) :
  grows_by 1 t (snd (query_artist env artist bonus t)).
Proof. rewrite query_artist_run. apply grows_by_one. Qed.

Lemma query_song_trace (song : string) (bonus : Q) (t : list call) :
  grows_by 1 t (snd (query_song env song bonus t)).
Proof.
  destruct (by_split_cases env song) as [(q & found & H) | H].
  - rewrite (query_song_run env _ _ _ bonus t H). apply grows_by_one.
  - rewrite (query_song_raise env _ bonus t H). apply grows_by_refl.
Qed.

Lemma specific_query_result (phrase : string) (bonus : Q) (t t' : list call)
    (r : pyval) :
  specific_query env phrase bonus t = (Ok r, t') ->
  r = NOTHING_FOUND \/ r = PNone
  \/ (exists id, r = PTuple [PFloat 0.7; album_candidate id])
  \/ (exists q id, r = PTuple [PFloat q; artist_candidate id]).
Proof.
  unfold specific_query, specific_query_with.
  destruct (re_match env "album" phrase) as [gd|].
  { unfold bind at 1, lift.
    destruct (group gd "album") as [album|e]; [|discriminate].
    intros H. destruct (query_album_result _ _ _ _ _ H) as [E | E]; auto. }
  destruct (re_match env "artist" phrase) as [gd|].
  { unfold bind at 1, lift.
    destruct (group gd "artist") as [artist|e]; [|discriminate].
    intros H. destruct (query_artist_result _ _ _ _ _ H) as [E | E]; auto. }
  destruct (re_match env "song" phrase) as [gd|].
  { unfold bind at 1, lift.
    destruct (group gd "track") as [song|e]; [|discriminate].
    cbv beta. unfold ret.
    destruct (by_split_cases env song) as [(q & found & H) | H].
    - rewrite (query_song_run env _ _ _ bonus t H). intros E.
      injection E as <- _. auto.
    - rewrite (query_song_raise env _ bonus t H). discriminate. }
  intros E. injection E as <- _. auto.
Qed.

Lemma specific_query_trace (phrase : string) (bonus : Q) (t : list call) :
  grows_by 1 t (snd (specific_query env phrase bonus t)).
Proof.
  unfold specific_query, specific_query_with.
  destruct (re_match env "album" phrase) as [gd|].
  { unfold bind at 1, lift.
    destruct (group gd "album") as [album|e]; [|apply grows_by_refl].
    apply query_album_trace. }
  destruct (re_match env "artist" phrase) as [gd|].
  { unfold bind at 1, lift.
    destruct (group gd "artist") as [artist|e]; [|apply grows_by_refl].
    apply query_artist_trace. }
  destruct (re_match env "song" phrase) as [gd|].
  { unfold bind at 1, lift.
    destruct (group gd "track") as [song|e]; [|apply grows_by_refl].
    apply query_song_trace. }
  apply grows_by_refl.
Qed.

Lemma generic_query_trace (phrase : string) (bonus : Q) (t : list call) :
  grows_by 2 t (snd (generic_query env phrase bonus t)).
Proof.
  destruct (generic_query_cases env phrase bonus t)
    as [(q & d & H & _) | [(s & H) | H]]; rewrite H; cbn [snd].
  - apply (grows_by_weaken 1); [lia | apply grows_by_one].
  - rewrite <- app_assoc. eexists. split; [reflexivity | simpl; lia].
  - apply (grows_by_weaken 1); [lia | apply grows_by_one].
Qed.

End QueryFacts.

(* ===================================================================== *)
(** ** What the handler returns *)

(** What reaches the last part of the handler when it returns: one of the
    three candidates the file builds, with its confidence. *)
Lemma CPS_resolved (env : Env) (phrase : string) (t t' : list call)
    (r : pyval) :
  CPS_match_query_phrase env phrase t = (Ok r, t') ->
  exists q d,
    match_result (contains "youtube" phrase) (sub_on_youtube env phrase)
      (PFloat q) d = Ok r
    /\ ((d = continue_candidate /\ q = 1.0)
        \/ ((exists id, d = album_candidate id) /\ q = 0.7)
        \/ (exists id, d = artist_candidate id)).
Proof.
  unfold CPS_match_query_phrase, CPS_match_query_phrase_with.
  set (p := sub_on_youtube env phrase).
  set (bonus := if contains "youtube" phrase then 0.1 else 0.0).
  set (ys := contains "youtube" phrase).
  unfold bind at 1. unfold continue_playback.
  destruct (String.eqb (strip p) "youtube").
  - cbn -[match_result]. unfold lift.
    destruct (match_result ys p (PFloat 1.0) _) as [r'|e] eqn:Hm;
      [|discriminate].
    intros E. injection E as <- _. exists 1.0, continue_candidate.
    split; [exact Hm | left; split; reflexivity].
  - unfold ret at 1, NOTHING_FOUND at 1.
    rewrite (bind_ok (lift (unpack2 (PTuple [PNone; PFloat 0.0]))) _ t t
               (PNone, PFloat 0.0) eq_refl).
    change (negb (truthy (PFloat 0.0))) with true. cbv iota.
    unfold bind at 1. unfold bind at 1.
    destruct (specific_query env p bonus t) as [[r2|e] t2] eqn:Hs;
      [|discriminate].
    assert (Hfinish : forall q d t3,
      truthy d = true ->
      ((d = continue_candidate /\ q = 1.0)
        \/ ((exists id, d = album_candidate id) /\ q = 0.7)
        \/ (exists id, d = artist_candidate id)) ->
      lift (match_result ys p (PFloat q) d) t3 = (Ok r, t') ->
      exists q d,
        match_result ys p (PFloat q) d = Ok r
        /\ ((d = continue_candidate /\ q = 1.0)
            \/ ((exists id, d = album_candidate id) /\ q = 0.7)
            \/ (exists id, d = artist_candidate id))).
    { intros q d t3 _ Hd. unfold lift.
      destruct (match_result ys p (PFloat q) d) as [r'|e] eqn:Hm;
        [|discriminate].
      intros E. injection E as <- _. exists q, d. split; assumption. }
    destruct (specific_query_result env p bonus t t2 r2 Hs)
      as [-> | [-> | [(id & ->) | (q & id & ->)]]].
    + unfold NOTHING_FOUND at 1.
      rewrite (bind_ok (lift (unpack2 (PTuple [PNone; PFloat 0.0]))) _ t2 t2
                 (PNone, PFloat 0.0) eq_refl).
      change (negb (truthy (PFloat 0.0))) with true. cbv iota.
      unfold bind at 1.
      destruct (generic_query env p bonus t2) as [[r3|e] t3] eqn:Hgq;
        [|discriminate].
      destruct (generic_query_cases env p bonus t2)
        as [(q & d & Hq & _ & Ha) | [(s & Hq) | Hq]];
        rewrite Hgq in Hq; try discriminate.
      injection Hq as -> _.
      destruct (query_artist env p bonus t2) as [oa ta] eqn:Hqa.
      cbn [fst] in Ha. subst oa.
      destruct (query_artist_result env p bonus t2 _ _ Hqa)
        as [E | (q' & id & E)].
      * discriminate.
      * injection E as -> ->.
        cbn [unpack2 lift ret].
        apply (Hfinish q' (artist_candidate id) t3); [reflexivity|].
        right. right. exists id. reflexivity.
    + discriminate.
    + cbn [unpack2 lift ret truthy album_candidate negb].
      apply (Hfinish 0.7 (album_candidate id) t2); [reflexivity|].
      right. left. split; [exists id|]; reflexivity.
    + cbn [unpack2 lift ret truthy artist_candidate negb].
      apply (Hfinish q (artist_candidate id) t2); [reflexivity|].
      right. right. exists id. reflexivity.
Qed.

Lemma match_result_continue (named : bool) (p : string) (c : pyval) :
  match_result named p c continue_candidate
  = Ok (PTuple [PStr (if named then p else p ++ " on youtube");
                PLevel (if named then EXACT else GENERIC);
                continue_candidate]).
Proof. destruct named; reflexivity. Qed.

Lemma match_result_album (named : bool) (p id : string) :
  match_result named p (PFloat 0.7) (album_candidate id)
  = Ok (PTuple [PStr (if named then p else p ++ " on youtube");
                PLevel (if named then EXACT else TITLE);
                album_candidate id]).
Proof. destruct named; reflexivity. Qed.

Lemma match_result_artist (named : bool) (p id : string) (q : Q) :
  match_result named p (PFloat q) (artist_candidate id)
  = Ok (PTuple [PStr (if named then p else p ++ " on youtube");
                PLevel (if named then EXACT
                        else if Qltb 0.9 q then TITLE
                        else if Qltb q 0.5 then GENERIC else TITLE);
                artist_candidate id]).
Proof.
  destruct named; [reflexivity|].
  unfold match_result. cbn -[Qltb].
  destruct (Qltb 0.9 q); [reflexivity|].
  destruct (Qltb q 0.5); reflexivity.
Qed.

(** X8. Whatever the handler returns is a triple of the phrase, a level
    and one of the three candidates the file builds (continuation, album,
    artist). With the provider named in the phrase the level is EXACT and
    the phrase is the normalised one; without, the phrase gets the
    [" on youtube"] suffix and the level is TITLE or GENERIC: TITLE for
    every album, GENERIC for the continuation. MULTI_KEY, ARTIST and
    CATEGORY are never returned. *)
Theorem CPS_result_shape (env : Env) (phrase : string) (t t' : list call)
    (r : pyval) :
  CPS_match_query_phrase env phrase t = (Ok r, t') ->
  let p := sub_on_youtube env phrase in
  let named := contains "youtube" phrase in
  exists level d,
    r = PTuple [PStr (if named then p else p ++ " on youtube");
                PLevel level; d]
    /\ (d = continue_candidate
        \/ (exists id, d = album_candidate id)
        \/ (exists id, d = artist_candidate id))
    /\ (named = true -> level = EXACT)
    /\ (named = false -> level = TITLE \/ level = GENERIC)
    /\ (named = false -> (exists id, d = album_candidate id) -> level = TITLE)
    /\ (named = false -> d = continue_candidate -> level = GENERIC).
Proof.
  intros H p named.
  destruct (CPS_resolved env phrase t t' r H)
    as (q & d & Hm & [[-> ->] | [[(id & ->) ->] | (id & ->)]]);
    fold p in Hm; fold named in Hm.
  - rewrite match_result_continue in Hm. injection Hm as <-.
    eexists. eexists. split; [reflexivity|].
    split; [left; reflexivity|].
    destruct named; repeat split; intros; try discriminate; auto.
    destruct H1 as (id & H1). discriminate H1.
  - rewrite match_result_album in Hm. injection Hm as <-.
    eexists. eexists. split; [reflexivity|].
    split; [right; left; exists id; reflexivity|].
    destruct named; repeat split; intros; try discriminate; auto.
  - rewrite match_result_artist in Hm. injection Hm as <-.
    eexists. eexists. split; [reflexivity|].
    split; [right; right; exists id; reflexivity|].
    destruct named; [repeat split; intros; discriminate|].
    split; [intros; discriminate|].
    split.
    { intros _. destruct (Qltb 0.9 q); [left; reflexivity|].
      destruct (Qltb q 0.5); [right | left]; reflexivity. }
    split.
    { intros _ (id' & E). discriminate E. }
    intros _ E. discriminate E.
Qed.

Lemma CPS_result_shape_witness :
  exists level d,
    PTuple [PStr "queen on youtube"; PLevel TITLE; artist_candidate "UC-queen"]
    = PTuple [PStr "queen on youtube"; PLevel level; d]
    /\ (d = continue_candidate
        \/ (exists id, d = album_candidate id)
        \/ (exists id, d = artist_candidate id)).
Proof.
  destruct (CPS_result_shape demo_env "queen" []
              [YtSearch "queen" "artists"]
              (PTuple [PStr "queen on youtube"; PLevel TITLE;
                       artist_candidate "UC-queen"]) eq_refl)
    as (level & d & H1 & H2 & _).
  exists level, d. split; [exact H1 | exact H2].
Defined.

(* ===================================================================== *)
(** ** How many searches a phrase costs *)

Lemma lift_trace {A} (o : outcome A) (t : list call) : snd (lift o t) = t.
Proof. destruct o; reflexivity. Qed.

Lemma bind_trace {A B} (m : M A) (f : A -> M B) (n k : nat) (t : list call) :
  grows_by n t (snd (m t)) ->
  (forall a t1, grows_by k t1 (snd (f a t1))) ->
  grows_by (n + k) t (snd (bind m f t)).
Proof.
  intros Hm Hf. unfold bind. destruct (m t) as [[a|e] t1]; cbn [snd] in *.
  - apply (grows_by_trans _ _ _ _ _ Hm (Hf a t1)).
  - apply (grows_by_weaken n); [lia | exact Hm].
Qed.

Lemma lift_grows {A} (o : outcome A) (t : list call) :
  grows_by 0 t (snd (lift o t)).
Proof. rewrite lift_trace. apply grows_by_refl. Qed.

(** X9. One phrase costs at most three catalog searches, whatever the
    handler returns or raises, and none when it is the continuation. *)
Theorem CPS_search_budget (env : Env) (phrase : string) (t : list call) :
  grows_by 3 t (snd (CPS_match_query_phrase env phrase t))
  /\ (String.eqb (strip (sub_on_youtube env phrase)) "youtube" = true ->
      snd (CPS_match_query_phrase env phrase t) = t).
Proof.
  split.
  - unfold CPS_match_query_phrase, CPS_match_query_phrase_with.
    apply (bind_trace _ _ 0 3).
    { unfold continue_playback.
      destruct (String.eqb _ "youtube"); apply grows_by_refl. }
    intros r1 t1. apply (bind_trace _ _ 0 3); [apply lift_grows|].
    intros [c1 d1] t2. apply (bind_trace _ _ 3 0).
    + destruct (negb (truthy d1)); [|apply (grows_by_refl 3)].
      apply (bind_trace _ _ 1 2); [apply specific_query_trace|].
      intros r2 t3. apply (bind_trace _ _ 0 2); [apply lift_grows|].
      intros [c2 d2] t4.
      destruct (negb (truthy d2)); [|apply (grows_by_refl 2)].
      apply (bind_trace _ _ 2 0); [apply generic_query_trace|].
      intros r3 t5. apply lift_grows.
    + intros [c d] t3. apply lift_grows.
  - intros Hy.
    unfold CPS_match_query_phrase, CPS_match_query_phrase_with, bind,
      continue_playback.
    rewrite Hy. cbn -[match_result]. apply lift_trace.
Qed.

Lemma CPS_search_budget_witness :
  snd (CPS_match_query_phrase demo_env "youtube" []) = [].
Proof.
  apply (proj2 (CPS_search_budget demo_env "youtube" [])). reflexivity.
Defined.

(** Three searches are reached: an album pattern that finds nothing, then
    the artist and the song of the fallback. *)
Example CPS_three_searches :
  CPS_match_query_phrase demo_env "the album xyzzy" []
  = (Raise TypeError,
     [YtSearch "xyzzy" "albums"; YtSearch "the album xyzzy" "artists";
      YtSearch "the album xyzzy" "songs"]).
Proof. reflexivity. Qed.

(* ===================================================================== *)
(** ** Patterns and the fallback *)

(** A phrase that the album pattern matches: the specific query is the
    album resolver's answer on the captured text, at any bonus. *)
Lemma specific_query_album (env : Env) (phrase album : string)
    (gd : list (string * string)) (b1 b2 : Q) (t : list call) :
  re_match env "album" phrase = Some gd ->
  group gd "album" = Ok album ->
  specific_query env phrase b1 t = query_album env album b2 t.
Proof.
  intros Hm Hg. unfold specific_query, specific_query_with.
  rewrite Hm. unfold bind at 1. unfold lift. rewrite Hg. cbv beta.
  unfold ret. unfold query_album. reflexivity.
Qed.

(** X10. The album pattern comes first and its resolver's answer is final
    for the specific query: when it matches, the result is the album
    resolver's on the captured text, whatever the artist and song patterns
    would match, and whatever the bonus, so neither the 0.1 of a named
    provider nor the 0.1 of the pattern changes it. *)
Theorem specific_query_album_first (env : Env) (phrase album : string)
    (gd : list (string * string)) (b1 b2 : Q) (t : list call) :
  re_match env "album" phrase = Some gd ->
  group gd "album" = Ok album ->
  specific_query env phrase b1 t = query_album env album b2 t.
Proof. exact (specific_query_album env phrase album gd b1 b2 t). Qed.

Lemma specific_query_album_first_witness :
  specific_query demo_env "the album abba gold" 0.1 []
  = query_album demo_env "abba gold" 0.0 [].
Proof.
  apply (specific_query_album_first demo_env "the album abba gold"
           "abba gold" [("album", "abba gold")]); reflexivity.
Defined.

(** X11. A pattern that matches without the group the code reads from it
    (the song pattern is read through the group [track]) makes the
    specific query raise [KeyError] before any search. *)
Theorem specific_query_missing_group (env : Env) (phrase : string)
    (gd : list (string * string)) (bonus : Q) (t : list call) :
  re_match env "album" phrase = None ->
  re_match env "artist" phrase = None ->
  re_match env "song" phrase = Some gd ->
  dict_find gd "track" = None ->
  specific_query env phrase bonus t = (Raise KeyError, t).
Proof.
  intros Ha Hr Hs Hg. unfold specific_query, specific_query_with.
  rewrite Ha, Hr, Hs.
  assert (E : group gd "track" = Raise KeyError).
  { clear Hs. induction gd as [|[k v] rest IH]; [reflexivity|].
    simpl in *. destruct (String.eqb k "track"); [discriminate | auto]. }
  unfold bind, lift. now rewrite E.
Qed.

Lemma specific_query_missing_group_witness :
  specific_query demo_env_song_group "the song imagine" 0.0 []
  = (Raise KeyError, []).
Proof.
  apply (specific_query_missing_group demo_env_song_group "the song imagine"
           [("song", "imagine")]); reflexivity.
Defined.

(** X12. When a pattern matched and its resolver found nothing, the
    handler still goes on to the fallback, with the whole normalised
    phrase: after the album search it searches the artists for the
    phrase. *)
Theorem CPS_falls_back_after_pattern (env : Env) (phrase album q : string)
    (gd : list (string * string)) (found : bool) (t : list call) :
  let p := sub_on_youtube env phrase in
  String.eqb (strip p) "youtube" = false ->
  re_match env "album" p = Some gd ->
  group gd "album" = Ok album ->
  by_split env album = Ok (q, found) ->
  yt_search env q "albums" = [] ->
  exists more,
    snd (CPS_match_query_phrase env phrase t)
    = (t ++ [YtSearch q "albums"; YtSearch p "artists"] ++ more)%list.
Proof.
  intros p Hc Hm Hg Hb Hy.
  set (bonus := if contains "youtube" phrase then 0.1 else 0.0).
  assert (Hs : specific_query env p bonus t
               = (Ok NOTHING_FOUND, (t ++ [YtSearch q "albums"])%list)).
  { rewrite (specific_query_album env p album gd bonus bonus t Hm Hg).
    rewrite (query_album_found env _ _ _ bonus t Hb). now rewrite Hy. }
  unfold CPS_match_query_phrase, CPS_match_query_phrase_with.
  fold p. fold bonus.
  rewrite (bind_ok _ _ _ _ _ (continue_playback_other p bonus t Hc)).
  unfold NOTHING_FOUND at 1.
  rewrite (bind_ok (lift (unpack2 (PTuple [PNone; PFloat 0.0]))) _ t t
             (PNone, PFloat 0.0) eq_refl).
  change (negb (truthy (PFloat 0.0))) with true. cbv iota.
  unfold bind at 1. unfold bind at 1. rewrite Hs.
  unfold NOTHING_FOUND at 1.
  rewrite (bind_ok (lift (unpack2 (PTuple [PNone; PFloat 0.0]))) _ _ _
             (PNone, PFloat 0.0) eq_refl).
  change (negb (truthy (PFloat 0.0))) with true. cbv iota.
  unfold bind at 1.
  destruct (generic_query_cases env p bonus (t ++ [YtSearch q "albums"]))
    as [(c & d & H & _) | [(s & H) | H]]; rewrite H.
  - exists []. cbn [unpack2 lift ret]. rewrite lift_trace.
    now rewrite <- app_assoc.
  - exists [YtSearch s "songs"]. cbn [snd]. now rewrite <- !app_assoc.
  - exists []. cbn [snd]. now rewrite <- app_assoc.
Qed.

Lemma CPS_falls_back_after_pattern_witness :
  exists more,
    snd (CPS_match_query_phrase demo_env "the album xyzzy" [])
    = ([] ++ [YtSearch "xyzzy" "albums"; YtSearch "the album xyzzy" "artists"]
          ++ more)%list.
Proof.
  apply (CPS_falls_back_after_pattern demo_env "the album xyzzy" "xyzzy"
           "xyzzy" [("album", "xyzzy")] false []); reflexivity.
Defined.

(** X13. The fallback of the skill returns a result exactly when the
    artist search has a result whose similarity plus the bonus is above
    0.7, and then with that one search. *)
Theorem generic_query_succeeds_iff (env : Env) (phrase : string) (bonus : Q)
    (t : list call) :
  (exists r t', generic_query env phrase bonus t = (Ok r, t'))
  <-> (exists d0 rest,
         yt_search env phrase "artists" = d0 :: rest
         /\ 0.7 < fuzzy_match env (r_artist d0) (lower phrase) + bonus).
Proof.
  assert (Hq : forall x, 0.8 < Qmin (x + (bonus + 0.1)) 1.0
                         <-> 0.7 < x + bonus).
  { intros x. rewrite Q.min_glb_lt_iff. split.
    - intros [H _]. lra.
    - intros H. split; [lra | reflexivity]. }
  split.
  - intros (r & t' & H).
    destruct (generic_query_cases env phrase bonus t)
      as [(q & d & Hg & Hlt & Ha) | [(s & Hg) | Hg]];
      rewrite Hg in H; try discriminate.
    rewrite query_artist_run in Ha. cbn [fst] in Ha.
    destruct (yt_search env phrase "artists") as [|d0 rest];
      [discriminate|].
    exists d0, rest. split; [reflexivity|].
    injection Ha as Hqe _. subst q. apply Hq. exact Hlt.
  - intros (d0 & rest & Hy & Hlt).
    destruct (generic_query_cases env phrase bonus t)
      as [(q & d & Hg & _) | [(s & Hg) | Hg]].
    + eauto.
    + exfalso. revert Hg. unfold generic_query, generic_query_with.
      rewrite (bind_ok _ _ _ _ _ (query_artist_run env phrase bonus t)).
      rewrite Hy.
      rewrite (bind_ok _ _ _ _ _ (consider_float _ _ [] _)).
      apply Hq in Hlt. apply Qltb_lt in Hlt.
      unfold DIRECT_RESPONSE_CONFIDENCE. rewrite Hlt. discriminate.
    + exfalso. revert Hg. unfold generic_query, generic_query_with.
      rewrite (bind_ok _ _ _ _ _ (query_artist_run env phrase bonus t)).
      rewrite Hy.
      rewrite (bind_ok _ _ _ _ _ (consider_float _ _ [] _)).
      apply Hq in Hlt. apply Qltb_lt in Hlt.
      unfold DIRECT_RESPONSE_CONFIDENCE. rewrite Hlt. discriminate.
Qed.

Lemma generic_query_succeeds_iff_witness :
  exists r t', generic_query demo_env "queen" 0.0 [] = (Ok r, t').
Proof.
  apply (proj2 (generic_query_succeeds_iff demo_env "queen" 0.0 [])).
  exists {| r_artist := "Queen"; r_browseId := "UC-queen" |}, [].
  split; reflexivity.
Defined.

(** X14. For a candidate whose type is none of the six playable ones and
    not the continuation, the level is GENERIC and the phrase is returned
    as it is, even when the phrase names the provider; for the
    continuation the level is EXACT with the provider named and GENERIC
    with the suffix otherwise. The confidence is not looked at in either
    case. *)
Theorem match_result_other_types (named : bool) (phrase : string)
    (confidence : pyval) (d : list (string * pyval)) :
  d <> [] ->
  in_strs (entries_get d "type")
    ["saved_tracks"; "album"; "artist"; "track"; "playlist"; "show"]
  = false ->
  match_result named phrase confidence (PDict d)
  = Ok (if eq_str (entries_get d "type") "continue"
        then PTuple [PStr (if named then phrase else phrase ++ " on youtube");
                     PLevel (if named then EXACT else GENERIC); PDict d]
        else PTuple [PStr phrase; PLevel GENERIC; PDict d]).
Proof.
  intros Hne Hty. unfold match_result.
  destruct d as [|e d']; [congruence|].
  cbn [truthy dict_get]. rewrite Hty.
  destruct (eq_str _ "continue"); [|reflexivity].
  destruct named; reflexivity.
Qed.

Lemma match_result_other_types_witness :
  match_result true "some podcast" (PFloat 1.0)
    (PDict [("type", PStr "podcast")])
  = Ok (PTuple [PStr "some podcast"; PLevel GENERIC;
                PDict [("type", PStr "podcast")]]).
Proof.
  apply (match_result_other_types true "some podcast" (PFloat 1.0)
           [("type", PStr "podcast")]); [discriminate | reflexivity].
Defined.

(* ===================================================================== *)
(** ** The pattern cache *)

Lemma dict_find_set_same {A} (d : list (string * A)) (k : string) (v : A) :
  dict_find (dict_set d k v) k = Some v.
Proof.
  induction d as [|[k' w] rest IH]; simpl.
  - now rewrite String.eqb_refl.
  - destruct (String.eqb k' k) eqn:E; simpl; rewrite E; [reflexivity | exact IH].
Qed.

Lemma dict_find_set_other {A} (d : list (string * A)) (k k' : string) (v : A) :
  k <> k' -> dict_find (dict_set d k v) k' = dict_find d k'.
Proof.
  intros Hne. induction d as [|[k0 w] rest IH]; simpl.
  - destruct (String.eqb_spec k k'); [contradiction | reflexivity].
  - destruct (String.eqb_spec k0 k) as [->|]; simpl.
    + destruct (String.eqb_spec k k'); [contradiction | reflexivity].
    + destruct (String.eqb k0 k'); [reflexivity | exact IH].
Qed.

Section Cache.

Variable platform : Platform.

(** X15. A pattern that is in the cache is returned from it: no resource
    is looked up or read and the object is left as it is, whatever the
    resource files now hold. *)
Theorem translate_regex_cached (regex v : string) (s : Skill)
    (l : list event) :
  dict_find (regexes s) regex = Some v ->
  translate_regex platform regex s l = (Done v, s, l).
Proof.
  intros H. unfold translate_regex, pbind, read_self, pret. rewrite H.
  cbv beta iota. now rewrite H.
Qed.

(** X16. A pattern that is not in the cache and has no resource file
    raises [KeyError]; nothing is read and nothing is cached. *)
Theorem translate_regex_missing (regex : string) (s : Skill)
    (l : list event) :
  dict_find (regexes s) regex = None ->
  find_resource platform (regex ++ ".regex") = None ->
  translate_regex platform regex s l = (Fail (Builtin KeyError), s, l).
Proof.
  intros H Hf. unfold translate_regex, pbind, read_self, pret. rewrite H, Hf.
  cbv beta iota. now rewrite H.
Qed.

(** X17. The first use of a pattern reads its resource file once, returns
    the text without the blanks around it and caches it under the
    pattern's name; the patterns cached before keep their text. *)
Theorem translate_regex_loads (regex path : string) (s : Skill)
    (l : list event) :
  dict_find (regexes s) regex = None ->
  find_resource platform (regex ++ ".regex") = Some path ->
  path <> EmptyString ->
  exists s',
    translate_regex platform regex s l
    = (Done (strip (read_resource platform path)), s',
       (l ++ [ReadResource path])%list)
    /\ dict_find (regexes s') regex
       = Some (strip (read_resource platform path))
    /\ (forall other, other <> regex ->
          dict_find (regexes s') other = dict_find (regexes s) other)
    /\ idle_count s' = idle_count s /\ ducking s' = ducking s
    /\ is_playing s' = is_playing s
    /\ last_played_type s' = last_played_type s.
Proof.
  intros H Hf Hp.
  exists (set_regexes
            (dict_set (regexes s) regex (strip (read_resource platform path)))
            s).
  assert (Hne : str_nonempty path = true)
    by (destruct path; [contradiction | reflexivity]).
  split.
  - unfold translate_regex, pbind, read_self, pret, write_self, call_out.
    rewrite H, Hf, Hne. cbv beta iota. cbn [regexes set_regexes].
    now rewrite dict_find_set_same.
  - cbn [regexes set_regexes]. split; [apply dict_find_set_same|].
    split; [|repeat split].
    intros other Hne'. apply dict_find_set_other. congruence.
Qed.

End Cache.

Lemma translate_regex_cached_witness :
  translate_regex demo_platform "album"
    (set_regexes [("album", "x")] new_skill) []
  = (Done "x", set_regexes [("album", "x")] new_skill, []).
Proof.
  apply (translate_regex_cached demo_platform "album" "x"). reflexivity.
Defined.

Lemma translate_regex_missing_witness :
  translate_regex demo_platform "podcast" new_skill []
  = (Fail (Builtin KeyError), new_skill, []).
Proof.
  apply (translate_regex_missing demo_platform "podcast"); reflexivity.
Defined.

Lemma translate_regex_loads_witness :
  exists s',
    translate_regex demo_platform "album" new_skill []
    = (Done "(the )?album (?P<album>.+)", s',
       [ReadResource "/skill/regex/en-us/album.regex"])
    /\ dict_find (regexes s') "album" = Some "(the )?album (?P<album>.+)".
Proof.
  destruct (translate_regex_loads demo_platform "album"
              "/skill/regex/en-us/album.regex" new_skill [] eq_refl eq_refl)
    as (s' & H1 & H2 & _); [discriminate|].
  exists s'. split; [exact H1 | exact H2].
Defined.

(* ===================================================================== *)
(** ** Starting playback *)

Ltac start_done :=
  cbn; rewrite ?andb_true_r, <- ?app_assoc; cbn;
  try match goal with |- context [truthy ?v] => destruct (truthy v) end;
  reflexivity.

(** [CPS_start] in one step: it never raises; a failure is spoken and
    leaves the object as it was, a success enables the intents and marks
    the object as playing. *)
Lemma CPS_start_run (platform : Platform) (phrase : string) (data : pyval)
    (s : Skill) (l : list event) :
  CPS_start platform phrase data s l =
    match subscript data "type" with
    | Fail r => (Done tt, s, (l ++ [PlaybackFailed r])%list)
    | Done ty =>
        match dispatch platform data ty with
        | (pre, Some r) =>
            (Done tt, s, (l ++ pre ++ [PlaybackFailed r])%list)
        | (pre, None) =>
            (Done tt, started ty s, (l ++ pre ++ playing_intents)%list)
        end
    end.
Proof.
  unfold CPS_start, try_except, dispatch, started, pbind, plift, pret, pfail,
    call_out, write_self, enable_playing_intents, play_playlist, play_artist,
    play_album, playing_intents.
  destruct (subscript data "type") as [ty|r]; [|reflexivity].
  destruct (eq_str ty "continue"); [start_done|].
  destruct (eq_str ty "playlist").
  { destruct (subscript data "playlistId") as [id|r]; start_done. }
  destruct (eq_str ty "artist").
  { destruct (subscript data "browseId") as [id|r]; [|start_done].
    cbn. destruct (get_artist platform id) as [[|x tr]|r]; start_done. }
  destruct (eq_str ty "album").
  { destruct (subscript data "browseId") as [id|r]; [|start_done].
    cbn. destruct (get_album platform id) as [tr|r]; start_done. }
  start_done.
Qed.

Lemma dispatch_calls (platform : Platform) (data ty : pyval) :
  failed (fst (dispatch platform data ty)) = false
  /\ audio_calls (fst (dispatch platform data ty)) = O.
Proof.
  unfold dispatch.
  destruct (eq_str ty "continue"); [split; reflexivity|].
  destruct (eq_str ty "playlist").
  { destruct (subscript data "playlistId"); split; reflexivity. }
  destruct (eq_str ty "artist").
  { destruct (subscript data "browseId") as [id|r]; [|split; reflexivity].
    destruct (get_artist platform id) as [[|x tr]|r]; split; reflexivity. }
  destruct (eq_str ty "album").
  { destruct (subscript data "browseId") as [id|r]; [|split; reflexivity].
    destruct (get_album platform id) as [tr|r]; split; reflexivity. }
  split; reflexivity.
Qed.

Lemma failed_app (l1 l2 : list event) :
  failed (l1 ++ l2) = failed l1 || failed l2.
Proof.
  induction l1 as [|e l IH]; [reflexivity|].
  destruct e; simpl; auto.
Qed.

Lemma audio_calls_app (l1 l2 : list event) :
  audio_calls (l1 ++ l2) = (audio_calls l1 + audio_calls l2)%nat.
Proof.
  induction l1 as [|e l IH]; [reflexivity|].
  destruct e; simpl; auto.
Qed.

Lemma resumes_app (l1 l2 : list event) :
  resumes (l1 ++ l2) = (resumes l1 + resumes l2)%nat.
Proof.
  induction l1 as [|e l IH]; [reflexivity|].
  destruct e; simpl; auto.
Qed.

(** What a start leaves behind. *)
Lemma CPS_start_outcome (platform : Platform) (phrase : string)
    (data : pyval) (s : Skill) (l : list event) :
  exists s' more,
    CPS_start platform phrase data s l = (Done tt, s', (l ++ more)%list)
    /\ ((failed more = true /\ s' = s)
        \/ (failed more = false /\ is_playing s' = true
            /\ idle_count s' = idle_count s /\ ducking s' = ducking s
            /\ regexes s' = regexes s)).
Proof.
  rewrite CPS_start_run.
  destruct (subscript data "type") as [ty|r].
  - pose proof (dispatch_calls platform data ty) as [Hf _].
    destruct (dispatch platform data ty) as [pre [r|]]; cbn [fst] in Hf.
    + eexists. eexists. split; [reflexivity|]. left.
      split; [|reflexivity]. rewrite failed_app, Hf. reflexivity.
    + eexists. eexists. split; [reflexivity|]. right.
      split; [rewrite failed_app, Hf; reflexivity|].
      unfold started.
      destruct (truthy ty && negb (eq_str ty "continue"));
        repeat split.
  - eexists. eexists. split; [reflexivity|]. left. split; reflexivity.
Qed.

(** X18. [CPS_start] never raises, whatever the candidate is and whatever
    the catalog client raises. It either fails, speaks the failure and
    leaves the object as it was, or succeeds and marks the object as
    playing, the ducking state and the pattern cache untouched. *)
Theorem CPS_start_atomic (platform : Platform) (phrase : string)
    (data : pyval) (s : Skill) (l : list event) :
  exists s' more,
    CPS_start platform phrase data s l = (Done tt, s', (l ++ more)%list)
    /\ ((failed more = true /\ s' = s)
        \/ (failed more = false /\ is_playing s' = true
            /\ idle_count s' = idle_count s /\ ducking s' = ducking s
            /\ regexes s' = regexes s)).
Proof. exact (CPS_start_outcome platform phrase data s l). Qed.

(** X19. [CPS_start] makes no call on the audio service: a start, even a
    successful one, plays nothing. *)
Theorem CPS_start_plays_nothing (platform : Platform) (phrase : string)
    (data : pyval) (s : Skill) (l : list event) :
  audio_calls (snd (CPS_start platform phrase data s l)) = audio_calls l.
Proof.
  rewrite CPS_start_run.
  destruct (subscript data "type") as [ty|r].
  - pose proof (dispatch_calls platform data ty) as [_ Ha].
    destruct (dispatch platform data ty) as [pre [r|]]; cbn [fst snd] in *;
      rewrite !audio_calls_app, Ha; simpl; lia.
  - cbn [snd]. rewrite audio_calls_app. simpl. lia.
Qed.

(** X20. The continuation candidate cannot be started: the handler
    acknowledges, fails and speaks the failure; the object is not marked
    as playing and the intents are not enabled. *)
Theorem CPS_start_continue (platform : Platform) (phrase : string)
    (data : pyval) (s : Skill) (l : list event) :
  subscript data "type" = Done (PStr "continue") ->
  CPS_start platform phrase data s l
  = (Done tt, s,
     (l ++ [Acknowledge; PlaybackFailed (Builtin AttributeError)])%list).
Proof. intros H. rewrite CPS_start_run, H. reflexivity. Qed.

Lemma CPS_start_continue_witness :
  CPS_start demo_platform "youtube" continue_candidate new_skill []
  = (Done tt, new_skill,
     [Acknowledge; PlaybackFailed (Builtin AttributeError)]).
Proof.
  apply (CPS_start_continue demo_platform "youtube" continue_candidate).
  reflexivity.
Defined.

(** X21. A candidate of a type that [CPS_start] does not dispatch on
    (track, show and saved_tracks among them) is started without any
    call to the catalog: the intents are enabled, the object is marked as
    playing and the type is remembered. *)
Theorem CPS_start_other_type (platform : Platform) (phrase name : string)
    (data : pyval) (s : Skill) (l : list event) :
  subscript data "type" = Done (PStr name) ->
  name <> EmptyString ->
  existsb (String.eqb name) ["continue"; "playlist"; "artist"; "album"]
  = false ->
  CPS_start platform phrase data s l
  = (Done tt, set_is_playing true (set_last_played_type (PStr name) s),
     (l ++ playing_intents)%list).
Proof.
  intros H Hne Hn. rewrite CPS_start_run, H. unfold dispatch, started.
  cbn [eq_str existsb] in *.
  rewrite !orb_false_r in Hn. apply orb_false_elim in Hn.
  destruct Hn as [H1 Hn]. apply orb_false_elim in Hn.
  destruct Hn as [H2 Hn]. apply orb_false_elim in Hn.
  destruct Hn as [H3 H4].
  rewrite H1, H2, H3, H4. cbn [truthy negb].
  destruct name; [congruence | reflexivity].
Qed.

Lemma CPS_start_other_type_witness :
  CPS_start demo_platform "some song" (PDict [("type", PStr "track")])
    new_skill []
  = (Done tt, set_is_playing true (set_last_played_type (PStr "track") new_skill),
     playing_intents).
Proof.
  apply (CPS_start_other_type demo_platform "some song" "track"
           (PDict [("type", PStr "track")]) new_skill []);
    [reflexivity | discriminate | reflexivity].
Defined.

(** X22. What starting a result of the query handler does: the
    continuation fails; an album starts when the catalog returns it; an
    artist starts when the catalog returns the artist with a song at
    least. So an object that was not playing is playing afterwards
    exactly in the last two cases. *)
Theorem CPS_start_of_result (env : Env) (platform : Platform)
    (phrase : string) (t t' : list call) (heard level d : pyval)
    (s : Skill) (l : list event) :
  CPS_match_query_phrase env phrase t = (Ok (PTuple [heard; level; d]), t') ->
  is_playing s = false ->
  is_playing (snd (fst (CPS_start platform phrase d s l))) = true
  <-> ((exists id tracks,
          d = album_candidate id
          /\ get_album platform (PStr id) = Done tracks)
       \/ (exists id first tracks,
             d = artist_candidate id
             /\ get_artist platform (PStr id) = Done (first :: tracks))).
Proof.
  intros H Hs.
  destruct (CPS_resolved env phrase t t' _ H)
    as (q & d0 & Hm & [[-> ->] | [[(id & ->) ->] | (id & ->)]]).
  - rewrite match_result_continue in Hm. injection Hm as _ _ <-.
    rewrite CPS_start_run. cbn. rewrite Hs. split; [discriminate|].
    intros [(id & tr & E & _) | (id & x & tr & E & _)]; discriminate E.
  - rewrite match_result_album in Hm. injection Hm as _ _ <-.
    rewrite CPS_start_run. unfold dispatch. cbn -[get_album].
    destruct (get_album platform (PStr id)) as [tr|r] eqn:Hg; cbn.
    + split; [|reflexivity]. intros _. left. exists id, tr.
      split; [reflexivity | exact Hg].
    + rewrite Hs. split; [discriminate|].
      intros [(id' & tr & E & Hg') | (id' & x & tr & E & _)];
        [|discriminate E].
      injection E as <-. congruence.
  - rewrite match_result_artist in Hm. injection Hm as _ _ <-.
    rewrite CPS_start_run. unfold dispatch. cbn -[get_artist].
    destruct (get_artist platform (PStr id)) as [[|x tr]|r] eqn:Hg; cbn.
    + rewrite Hs. split; [discriminate|].
      intros [(id' & tr & E & _) | (id' & x & tr & E & Hg')];
        [discriminate E|].
      injection E as <-. congruence.
    + split; [|reflexivity]. intros _. right. exists id, x, tr.
      split; [reflexivity | exact Hg].
    + rewrite Hs. split; [discriminate|].
      intros [(id' & tr & E & _) | (id' & x & tr & E & Hg')];
        [discriminate E|].
      injection E as <-. congruence.
Qed.

Lemma CPS_start_of_result_witness :
  is_playing (snd (fst (CPS_start demo_platform "the album abba gold"
                          (album_candidate "MPRE-1") new_skill [])))
  = true.
Proof.
  apply (proj2 (CPS_start_of_result demo_env demo_platform
                  "the album abba gold" []
                  [YtSearch "abba gold" "albums"]
                  (PStr "the album abba gold on youtube") (PLevel TITLE)
                  (album_candidate "MPRE-1") new_skill [] eq_refl eq_refl)).
  left. exists "MPRE-1", ["v1"; "v2"]. split; reflexivity.
Defined.

(* ===================================================================== *)
(** ** Ducking and stopping *)

Ltac fields :=
  cbn [snd fst idle_count ducking is_playing last_played_type regexes
       set_ducking set_idle_count set_is_playing set_last_played_type
       set_regexes andb orb negb].

Section Requests.

Variable platform : Platform.

Lemma CPS_start_keeps (phrase : string) (data : pyval) (s : Skill)
    (l : list event) :
  let s' := snd (fst (CPS_start platform phrase data s l)) in
  idle_count s' = idle_count s /\ ducking s' = ducking s
  /\ (is_playing s = true -> is_playing s' = true).
Proof.
  destruct (CPS_start_outcome platform phrase data s l)
    as (s' & more & -> & [[_ ->] | (_ & Hp & Hi & Hd & _)]); cbn; auto.
Qed.


(** One request keeps the object sound. *)
Lemma handle_sound (r : request) (s : Skill) (l : list event) :
  sound s -> sound (snd (fst (handle platform r s l))).
Proof.
  intros Hs. pose proof Hs as [Hc Hd]. destruct r; cbn [handle].
  - unfold handle_listener_started, pbind, read_self, pause_audio, call_out,
      write_self, pret.
    destruct (is_playing s) eqn:Hp; fields; [|exact Hs].
    destruct use_ducking; fields; [|exact Hs].
    split; fields; [lia|]. intros _. split; [lia | exact Hp].
  - unfold check_for_idle, resume, pbind, read_self, call_out, write_self,
      pret.
    destruct (ducking s) eqn:Hk; fields; [|exact Hs].
    destruct (Hd eq_refl) as [Hlt Hp].
    destruct (negb (String.eqb active "")
              || String.eqb active "YoutubeMusicSkill"); fields.
    + destruct (5 <=? idle_count s + 1)%Z eqn:E; fields.
      * apply Z.leb_le in E. split; fields; [lia | discriminate].
      * apply Z.leb_gt in E. split; fields; [lia|].
        intros _. split; [lia | exact Hp].
    + split; fields; [lia|]. intros _. split; [lia | exact Hp].
  - unfold pause, pbind, write_self, pause_audio, call_out. fields.
    split; fields; [exact Hc | discriminate].
  - exact Hs.
  - exact Hs.
  - exact Hs.
  - unfold forget, stop, pbind, read_self, do_stop, pause, pause_audio,
      write_self, call_out, pret.
    destruct (is_playing s); fields; [|exact Hs].
    split; fields; [exact Hc | discriminate].
  - destruct (CPS_start_keeps phrase data s l) as (Hi & Hk & Hp).
    cbv zeta in Hi, Hk, Hp. split; [now rewrite Hi|].
    rewrite Hk, Hi. intros H. destruct (Hd H) as [Hlt Hpl]. auto.
  - exact Hs.
  - exact Hs.
Qed.

(** X23. From its creation on, whatever the requests: the idle counter
    stays between 0 and 5, and the object ducks only while it is playing
    and the counter is below 5. *)
Theorem serve_sound (rs : list request) (l : list event) :
  sound (fst (serve platform rs new_skill l)).
Proof.
  assert (H : forall rs s l, sound s -> sound (fst (serve platform rs s l))).
  { clear rs l. induction rs as [|r rest IH]; intros s l Hs; [exact Hs|].
    cbn [serve]. pose proof (handle_sound r s l Hs) as Hs'.
    destruct (handle platform r s l) as [[o s'] l']. apply IH. exact Hs'. }
  apply H. split; [cbn; lia | discriminate].
Qed.

Lemma handle_keeps_playing (r : request) (s : Skill) (l : list event) :
  is_playing s = true ->
  is_playing (snd (fst (handle platform r s l))) = true.
Proof.
  intros Hp. destruct r; cbn [handle].
  - unfold handle_listener_started, pbind, read_self, pause_audio, call_out,
      write_self, pret.
    rewrite Hp. destruct use_ducking; fields; exact Hp.
  - unfold check_for_idle, resume, pbind, read_self, call_out, write_self,
      pret.
    destruct (ducking s); fields; [|exact Hp].
    destruct (negb (String.eqb active "")
              || String.eqb active "YoutubeMusicSkill"); fields; [|exact Hp].
    destruct (5 <=? idle_count s + 1)%Z; fields; exact Hp.
  - exact Hp.
  - exact Hp.
  - exact Hp.
  - exact Hp.
  - unfold forget, stop, pbind, read_self, do_stop, pause, pause_audio,
      write_self, call_out, pret.
    rewrite Hp. fields. exact Hp.
  - destruct (CPS_start_keeps phrase data s l) as (_ & _ & H). auto.
  - exact Hp.
  - exact Hp.
Qed.

(** X24. Nothing resets [is_playing]: once the object is marked as
    playing it stays so through every request, a stop or a pause among
    them, so [stop] pauses the audio service and returns [True] ever
    after. *)
Theorem playing_forever (rs : list request) (s : Skill) (l : list event) :
  is_playing s = true ->
  let s' := fst (serve platform rs s l) in
  let l' := snd (serve platform rs s l) in
  is_playing s' = true
  /\ stop s' l' = (Done true, set_ducking false s', (l' ++ [AudioPause])%list).
Proof.
  intros Hp.
  assert (H : is_playing (fst (serve platform rs s l)) = true).
  { revert s l Hp. induction rs as [|r rest IH]; intros s l Hp; [exact Hp|].
    cbn [serve]. pose proof (handle_keeps_playing r s l Hp) as Hp'.
    destruct (handle platform r s l) as [[o s'] l']. apply IH. exact Hp'. }
  cbv zeta. split; [exact H|].
  unfold stop, pbind, read_self, do_stop, pause, pause_audio, write_self,
    call_out, pret.
  rewrite H. reflexivity.
Qed.

(** A stop before anything was started does nothing and returns
    [False]. *)
Lemma stop_idle (s : Skill) (l : list event) :
  is_playing s = false -> stop s l = (Done false, s, l).
Proof.
  intros H. unfold stop, pbind, read_self, pret. now rewrite H.
Qed.

End Requests.

Lemma playing_forever_witness :
  is_playing
    (fst (serve demo_platform [Stop; Pause; IdleCheck ""; Stop]
            (set_is_playing true new_skill) []))
  = true.
Proof.
  apply (proj1 (playing_forever demo_platform [Stop; Pause; IdleCheck ""; Stop]
                  (set_is_playing true new_skill) [] eq_refl)).
Defined.

(** A start of an album, then two stops: both pause the audio. *)
Example start_then_stop_twice :
  serve demo_platform
    [Start "abba gold" (album_candidate "MPRE-1"); Stop; Stop] new_skill []
  = (set_is_playing true (set_last_played_type (PStr "album") new_skill),
     ([GetAlbum (PStr "MPRE-1")] ++ playing_intents
      ++ [AudioPause; AudioPause])%list).
Proof. reflexivity. Qed.

(* ===================================================================== *)
(** ** The idle check *)

(** The test of the idle check holds exactly when the display manager
    names an active skill: its second half adds nothing. *)
Lemma idle_test (active : string) :
  negb (String.eqb active "") || String.eqb active "YoutubeMusicSkill"
  = negb (String.eqb active "").
Proof.
  destruct (String.eqb_spec active "") as [->|]; [reflexivity|].
  reflexivity.
Qed.

Lemma check_for_idle_active (active : string) (s : Skill) (l : list event) :
  ducking s = true -> active <> "" ->
  check_for_idle active s l
  = if (5 <=? idle_count s + 1)%Z
    then (Done tt, set_ducking false (set_idle_count (idle_count s + 1) s),
          (l ++ [CancelScheduled "IdleCheck"; AudioResume])%list)
    else (Done tt, set_idle_count (idle_count s + 1) s, l).
Proof.
  intros Hk Ha.
  unfold check_for_idle, resume, pbind, read_self, call_out, write_self, pret.
  rewrite Hk, idle_test. cbn [negb].
  destruct (String.eqb_spec active "") as [->|]; [contradiction|].
  cbn [negb]. fields.
  destruct (5 <=? idle_count s + 1)%Z; [|reflexivity].
  now rewrite <- app_assoc.
Qed.

Lemma check_for_idle_quiet (s : Skill) (l : list event) :
  ducking s = true ->
  check_for_idle "" s l = (Done tt, set_idle_count 0 s, l).
Proof.
  intros Hk.
  unfold check_for_idle, pbind, read_self, call_out, write_self, pret.
  now rewrite Hk.
Qed.

Section IdleChecks.

Variable platform : Platform.

Lemma serve_active_checks (active : string) (n : nat) :
  forall (s : Skill) (l : list event),
    ducking s = true -> active <> "" ->
    (idle_count s + Z.of_nat n < 5)%Z ->
    serve platform (repeat (IdleCheck active) n) s l
    = (set_idle_count (idle_count s + Z.of_nat n) s, l).
Proof.
  induction n as [|n IH]; intros s l Hk Ha Hlt.
  - cbn [repeat serve]. f_equal. destruct s as [ic dk lp ip rg].
    unfold set_idle_count. fields. f_equal. cbn [Z.of_nat]. lia.
  - cbn [repeat serve handle]. rewrite (check_for_idle_active _ _ _ Hk Ha).
    destruct (5 <=? idle_count s + 1)%Z eqn:E; [apply Z.leb_le in E; lia|].
    rewrite IH; [|exact Hk | exact Ha | fields; lia].
    f_equal. unfold set_idle_count. fields. f_equal. lia.
Qed.

(** X25. After the listener has started on a playing object with ducking
    on, the audio is paused and the idle check scheduled; the first four
    checks that see an active display change nothing that is heard, and
    the fifth cancels the check, ends the ducking and resumes the audio. *)
Theorem ducking_resumes_at_five (active : string) (n : nat) (s : Skill)
    (l : list event) :
  is_playing s = true -> active <> "" ->
  let ducked :=
    (l ++ [AudioPause; CancelScheduled "IdleCheck";
           ScheduleRepeating "IdleCheck" 1%Z])%list in
  ((n < 5)%nat ->
     serve platform (ListenerStarted true :: repeat (IdleCheck active) n) s l
     = (set_idle_count (Z.of_nat n) (set_ducking true s), ducked))
  /\ serve platform (ListenerStarted true :: repeat (IdleCheck active) 5) s l
     = (set_ducking false (set_idle_count 5 (set_ducking true s)),
        (ducked ++ [CancelScheduled "IdleCheck"; AudioResume])%list).
Proof.
  intros Hp Ha ducked.
  assert (Hstart : handle platform (ListenerStarted true) s l
                   = (Done tt, set_idle_count 0 (set_ducking true s), ducked)).
  { cbn [handle].
    unfold handle_listener_started, pbind, read_self, pause_audio, call_out,
      write_self, pret.
    rewrite Hp. fields. unfold ducked. now rewrite <- !app_assoc. }
  split.
  - intros Hn. cbn [serve]. rewrite Hstart.
    rewrite serve_active_checks; [|reflexivity | exact Ha | fields; lia].
    f_equal.
  - cbn [serve]. rewrite Hstart.
    change (repeat (IdleCheck active) 5)
      with (repeat (IdleCheck active) 4 ++ [IdleCheck active])%list.
    assert (Happ : forall rs1 rs2 s0 l0,
              serve platform (rs1 ++ rs2) s0 l0
              = serve platform rs2 (fst (serve platform rs1 s0 l0))
                  (snd (serve platform rs1 s0 l0))).
    { induction rs1 as [|r rs1 IH]; intros rs2 s0 l0; [reflexivity|].
      cbn [app serve]. destruct (handle platform r s0 l0) as [[o s1] l1].
      apply IH. }
    rewrite Happ.
    rewrite serve_active_checks; [|reflexivity | exact Ha | fields; lia].
    cbn [fst snd serve handle].
    rewrite check_for_idle_active; [|reflexivity | exact Ha].
    reflexivity.
Qed.

(** X26. While the display manager names no active skill the counter is
    put back to 0 at every check: the ducking never ends by itself and
    the audio is never resumed, however many checks run. *)
Theorem ducking_stays_when_quiet (n : nat) (s : Skill) (l : list event) :
  ducking s = true ->
  snd (serve platform (repeat (IdleCheck "") n) s l) = l
  /\ ducking (fst (serve platform (repeat (IdleCheck "") n) s l)) = true.
Proof.
  revert s. induction n as [|n IH]; intros s Hk; [split; [reflexivity | exact Hk]|].
  cbn [repeat serve handle]. rewrite (check_for_idle_quiet _ _ Hk).
  apply IH. exact Hk.
Qed.

(** X27. On an object that is not ducking, after a pause for one, an idle
    check only cancels its own schedule: it never resumes the audio and
    never changes the object. *)
Theorem idle_check_off (actives : list string) (s : Skill) (l : list event) :
  ducking s = false ->
  serve platform (map IdleCheck actives) s l
  = (s, (l ++ repeat (CancelScheduled "IdleCheck") (List.length actives))%list).
Proof.
  intros Hk. revert l. induction actives as [|a rest IH]; intros l.
  - cbn. now rewrite app_nil_r.
  - cbn [map serve handle List.length repeat].
    unfold check_for_idle, pbind, read_self, call_out, write_self, pret.
    rewrite Hk. cbn [negb]. rewrite IH. now rewrite <- app_assoc.
Qed.

End IdleChecks.

Lemma ducking_resumes_at_five_witness :
  serve demo_platform
    (ListenerStarted true :: repeat (IdleCheck "HomeScreen") 5)
    (set_is_playing true new_skill) []
  = (set_ducking false
       (set_idle_count 5 (set_ducking true (set_is_playing true new_skill))),
     [AudioPause; CancelScheduled "IdleCheck";
      ScheduleRepeating "IdleCheck" 1%Z;
      CancelScheduled "IdleCheck"; AudioResume]).
Proof.
  assert (Ha : "HomeScreen" <> "") by discriminate.
  exact (proj2 (ducking_resumes_at_five demo_platform "HomeScreen" 0
                  (set_is_playing true new_skill) [] eq_refl Ha)).
Defined.

Lemma ducking_stays_when_quiet_witness :
  snd (serve demo_platform (repeat (IdleCheck "") 7)
         (set_ducking true (set_is_playing true new_skill)) [])
  = [].
Proof.
  apply (proj1 (ducking_stays_when_quiet demo_platform 7
                  (set_ducking true (set_is_playing true new_skill)) []
                  eq_refl)).
Defined.

Lemma idle_check_off_witness :
  serve demo_platform (map IdleCheck ["HomeScreen"; ""]) new_skill []
  = (new_skill, [CancelScheduled "IdleCheck"; CancelScheduled "IdleCheck"]).
Proof.
  apply (idle_check_off demo_platform ["HomeScreen"; ""] new_skill []).
  reflexivity.
Defined.

(* ===================================================================== *)
(** ** The annotation pattern *)



















(* ===================================================================== *)
(** ** The two similarities of [best_confidence] *)




(** For a similarity that does not tell the case of the title, the
    confidence is also at least the similarity of the title as it is. *)
Lemma best_confidence_ge_raw_when_case_blind (fm : string -> string -> Q)
    (title query : string) :
  (forall a b, fm (lower a) b == fm a b) ->
  fm title query <= best_confidence fm title query.
Proof.
  intros Hblind. rewrite <- (Hblind title query).
  apply best_confidence_ge_lowered.
Qed.

(* ===================================================================== *)
(** ** The handler when nothing is found *)

(** The handler when the continuation check and the specific query gave
    no data: it ends as the fallback does, started after the searches of
    the specific query. *)
Lemma CPS_falls_back_from (env : Env) (phrase : string) (c d : pyval)
    (t t2 : list call) :
  let p := sub_on_youtube env phrase in
  let bonus := if contains "youtube" phrase then 0.1 else 0.0 in
  String.eqb (strip p) "youtube" = false ->
  specific_query env p bonus t = (Ok (PTuple [c; d]), t2) ->
  truthy d = false ->
  CPS_match_query_phrase env phrase t
  = bind (generic_query env p bonus)
      (fun r => bind (lift (unpack2 r))
         (fun cd => lift (match_result (contains "youtube" phrase) p
                            (fst cd) (snd cd)))) t2.
Proof.
  intros p bonus Hc Hs Hd.
  unfold CPS_match_query_phrase, CPS_match_query_phrase_with.
  fold p. fold bonus.
  rewrite (bind_ok _ _ _ _ _ (continue_playback_other p bonus t Hc)).
  unfold NOTHING_FOUND at 1.
  rewrite (bind_ok (lift (unpack2 (PTuple [PNone; PFloat 0.0]))) _ t t
             (PNone, PFloat 0.0) eq_refl).
  change (negb (truthy (PFloat 0.0))) with true. cbv iota.
  unfold bind at 1. unfold bind at 1. rewrite Hs.
  rewrite (bind_ok (lift (unpack2 (PTuple [c; d]))) _ t2 t2 (c, d) eq_refl).
  rewrite Hd. cbn [negb].
  unfold bind.
  destruct (generic_query env p bonus t2) as [[r|e] t'] ; [|reflexivity].
  unfold lift. destruct (unpack2 r) as [[c' d']|e]; reflexivity.
Qed.

(** C10. The handler of the skill never returns [None]. Where the
    continuation check and the specific query give no data and the artist
    resolver of the fallback gives nothing above 0.8, so that nothing is
    found, the handler does not reach its last branch: the fallback
    raises, and the handler with it, [TypeError] or [ValueError]. *)
Theorem CPS_nothing_found_raises (env : Env) (phrase : string)
    (t : list call) :
  let p := sub_on_youtube env phrase in
  let bonus := if contains "youtube" phrase then 0.1 else 0.0 in
  fst (CPS_match_query_phrase env phrase t) <> Ok PNone
  /\ (forall c d t2,
        String.eqb (strip p) "youtube" = false ->
        specific_query env p bonus t = (Ok (PTuple [c; d]), t2) ->
        truthy d = false ->
        confidence_at_most 0.8 (fst (query_artist env p bonus t2)) ->
        fst (CPS_match_query_phrase env phrase t) = Raise TypeError
        \/ fst (CPS_match_query_phrase env phrase t) = Raise ValueError).
Proof.
  intros p bonus. split; [apply CPS_never_None|].
  intros c d t2 Hc Hs Hd Hweak.
  rewrite (CPS_falls_back_from env phrase c d t t2 Hc Hs Hd).
  fold p. fold bonus.
  destruct (generic_query_cases env p bonus t2)
    as [(q & d' & _ & Hq & Hart) | [(s & H) | H]].
  - exfalso. rewrite Hart in Hweak. simpl in Hweak.
    exact (Qlt_not_le _ _ Hq Hweak).
  - left. rewrite (bind_raise _ _ _ _ _ H). reflexivity.
  - right. rewrite (bind_raise _ _ _ _ _ H). reflexivity.
Qed.

Lemma CPS_nothing_found_raises_witness :
  fst (CPS_match_query_phrase demo_env "the album xyzzy" []) <> Ok PNone
  /\ (fst (CPS_match_query_phrase demo_env "the album xyzzy" [])
      = Raise TypeError
      \/ fst (CPS_match_query_phrase demo_env "the album xyzzy" [])
         = Raise ValueError).
Proof.
  destruct (CPS_nothing_found_raises demo_env "the album xyzzy" [])
    as (H1 & H2).
  split; [exact H1|].
  apply (H2 PNone (PFloat 0.0) [YtSearch "xyzzy" "albums"]);
    [reflexivity | reflexivity | reflexivity | exact I].
Defined.

(** Nothing in the catalog for the phrase, and no pattern that matches:
    the handler raises where its last branch would return [None]. *)
Example CPS_nothing_found_xyzzy :
  demo_search "xyzzy" "artists" = []
  /\ demo_search "xyzzy" "songs" = []
  /\ demo_search "xyzzy" "albums" = []
  /\ fst (CPS_match_query_phrase demo_env "xyzzy" []) = Raise TypeError.
Proof. repeat split. Qed.
